(** * Aether RAG chat plugin: the request/response file bridge of [main.ts]

    A shallow embedding of [src/main.ts]: the document merge performed by
    [checkResults], the rendering of the answer block, the question
    dispatcher [handleQuestionSubmit] and the polling loop started by
    [renderResultsWhenAvailable].

    JavaScript strings are sequences of UTF-16 code units; they are modelled
    as [list N], one number per code unit.  String literals of the source are
    written with [u "..."]. *)

From Stdlib Require Import String Ascii List NArith ZArith Bool Lia.
From Stdlib Require Import DecimalString.
Import ListNotations.

Set Implicit Arguments.

(** ** JavaScript strings *)

Module JS.

Definition jsstring := list N.

(** The code units of an ASCII literal. *)
Definition u (s : string) : jsstring :=
  map N_of_ascii (list_ascii_of_string s).

(** Back to a printable string, for code units below 256. *)
Definition show (s : jsstring) : string :=
  string_of_list_ascii (map ascii_of_N s).

Fixpoint str_eqb (a b : jsstring) : bool :=
  match a, b with
  | [], [] => true
  | x :: a', y :: b' => N.eqb x y && str_eqb a' b'
  | _, _ => false
  end.

(** [WhiteSpace] and [LineTerminator] of ECMAScript, the code units removed
    by [String.prototype.trim]. *)
Definition isWhite (c : N) : bool :=
  ((9 <=? c) && (c <=? 13) || (c =? 32) || (c =? 160) || (c =? 5760)
   || (8192 <=? c) && (c <=? 8202) || (c =? 8232) || (c =? 8233)
   || (c =? 8239) || (c =? 8287) || (c =? 12288) || (c =? 65279))%N.

Fixpoint trimStart (s : jsstring) : jsstring :=
  match s with
  | [] => []
  | c :: s' => if isWhite c then trimStart s' else s
  end.

Definition trimEnd (s : jsstring) : jsstring := rev (trimStart (rev s)).

(** [s.trim()] *)
Definition trim (s : jsstring) : jsstring := trimEnd (trimStart s).

(** [s.startsWith(p)] *)
Fixpoint startsWith (p s : jsstring) : bool :=
  match p, s with
  | [], _ => true
  | x :: p', y :: s' => N.eqb x y && startsWith p' s'
  | _ :: _, [] => false
  end.

(** [s.includes(p)] *)
Fixpoint includes (p s : jsstring) : bool :=
  startsWith p s ||
  match s with
  | [] => false
  | _ :: s' => includes p s'
  end.

(** The text before and after the leftmost occurrence of [sep] in [s]. *)
Fixpoint cut (sep s : jsstring) : option (jsstring * jsstring) :=
  if startsWith sep s then Some ([], skipn (length sep) s)
  else match s with
       | [] => None
       | c :: s' =>
           match cut sep s' with
           | Some (b, a) => Some (c :: b, a)
           | None => None
           end
       end.

(** [s.split(sep)] for a non-empty separator: the pieces between the
    successive, non-overlapping occurrences of [sep], scanning from the left.
    Every cut consumes at least one code unit, so [length s] rounds are
    enough. *)
Fixpoint split_rounds (n : nat) (sep s : jsstring) : list jsstring :=
  match n with
  | O => [s]
  | S n' =>
      match cut sep s with
      | None => [s]
      | Some (b, a) => b :: split_rounds n' sep a
      end
  end.

Definition split (sep s : jsstring) : list jsstring :=
  split_rounds (length s) sep s.

(** [parts.join(sep)] *)
Fixpoint join (sep : jsstring) (parts : list jsstring) : jsstring :=
  match parts with
  | [] => []
  | [p] => p
  | p :: ps => p ++ sep ++ join sep ps
  end.

End JS.
Import JS.

(** ** Document merge (main.ts, lines 172-173) *)

Module Merge.

Definition delimiter : jsstring := u "---".

(** A line feed. *)
Definition nl : jsstring := [10%N].

(** [const [header, ...rest] = currentContent.split('---');
     const newContent =
       `${header.trim()}\n\n---\n\n${answerContent}${rest.join('---').trim()}`;]
    [split] never returns an empty array, so [header] is always a string:
    the [[]] branch is unreachable (see [split_nonempty]). *)
Definition merge (currentContent answerContent : jsstring) : jsstring :=
  match split delimiter currentContent with
  | header :: rest =>
      trim header ++ nl ++ nl ++ delimiter ++ nl ++ nl
        ++ answerContent ++ trim (join delimiter rest)
  | [] => []
  end.

(** The header region of a text: everything before the first delimiter, the
    whole text when there is none. *)
Definition headerOf (text : jsstring) : jsstring :=
  match cut delimiter text with
  | Some (b, _) => b
  | None => text
  end.

(** The rest region: everything after the first delimiter. *)
Definition restOf (text : jsstring) : jsstring :=
  match cut delimiter text with
  | Some (_, a) => a
  | None => []
  end.

(** A double quote. *)
Definition dq : jsstring := [34%N].
Definition quoted (s : string) : jsstring := dq ++ u s ++ dq.

(** [getInitialContent()], lines 77-90: the text of a new chat note. *)
Definition getInitialContent : jsstring :=
  nl ++ u "<div id=" ++ quoted "chat-log" ++ u " style="
     ++ quoted "margin-bottom: 10px;" ++ u "></div>" ++ nl
  ++ nl
  ++ u "<form id=" ++ quoted "chat-form" ++ u ">" ++ nl
  ++ u "  <div style="
     ++ quoted "display: flex; flex-direction: row; align-items: center;"
     ++ u ">" ++ nl
  ++ u "    <input type=" ++ quoted "text" ++ u " placeholder="
     ++ quoted "Ask a question" ++ u " style=" ++ quoted "flex: 1;"
     ++ u ">" ++ nl
  ++ u "    <button type=" ++ quoted "submit" ++ u " style="
     ++ quoted "margin-left:10px;" ++ u ">Submit</button>" ++ nl
  ++ u "  </div>" ++ nl
  ++ u "</form>" ++ nl
  ++ nl
  ++ u "---" ++ nl.

End Merge.
Import Merge.

(** ** Node's [path.posix.basename] and [path.posix.extname]

    [main.ts] calls [path.basename] and [path.extname]; on the platforms
    where [path] is [path.posix] these are the two functions below.  Both
    scan the path from its last code unit to its first.  The loops are
    written over the reversed path, [i] being the index of the head. *)

Module Path.

Local Open Scope Z_scope.

Definition CHAR_FORWARD_SLASH : N := 47.
Definition CHAR_DOT : N := 46.

(** [s.slice(a, b)] *)
Definition slice (s : jsstring) (a b : Z) : jsstring :=
  let len := Z.of_nat (List.length s) in
  let from := if a <? 0 then Z.max (len + a) 0 else Z.min a len in
  let to := if b <? 0 then Z.max (len + b) 0 else Z.min b len in
  firstn (Z.to_nat (Z.max (to - from) 0)) (skipn (Z.to_nat from) s).

Record ext_state := ExtState
  { startDot : Z; startPart : Z; ext_end : Z;
    ext_matchedSlash : bool; preDotState : Z }.

Fixpoint extname_loop (rs : list N) (i : Z) (st : ext_state) : ext_state :=
  match rs with
  | [] => st
  | code :: rs' =>
      if N.eqb code CHAR_FORWARD_SLASH then
        if negb (ext_matchedSlash st) then
          ExtState (startDot st) (i + 1) (ext_end st)
                   (ext_matchedSlash st) (preDotState st)
        else extname_loop rs' (i - 1) st
      else
        let st1 :=
          if ext_end st =? -1
          then ExtState (startDot st) (startPart st) (i + 1) false
                        (preDotState st)
          else st in
        let st2 :=
          if N.eqb code CHAR_DOT then
            if startDot st1 =? -1
            then ExtState i (startPart st1) (ext_end st1)
                          (ext_matchedSlash st1) (preDotState st1)
            else if negb (preDotState st1 =? 1)
            then ExtState (startDot st1) (startPart st1) (ext_end st1)
                          (ext_matchedSlash st1) 1
            else st1
          else if negb (startDot st1 =? -1)
          then ExtState (startDot st1) (startPart st1) (ext_end st1)
                        (ext_matchedSlash st1) (-1)
          else st1 in
        extname_loop rs' (i - 1) st2
  end.

Definition extname (path : jsstring) : jsstring :=
  let st := extname_loop (rev path) (Z.of_nat (List.length path) - 1)
                         (ExtState (-1) 0 (-1) true 0) in
  if (startDot st =? -1) || (ext_end st =? -1) || (preDotState st =? 0)
     || ((preDotState st =? 1) && (startDot st =? ext_end st - 1)
         && (startDot st =? startPart st + 1))
  then []
  else slice path (startDot st) (ext_end st).

Record base_state := BaseState
  { b_start : Z; b_end : Z; b_matchedSlash : bool;
    extIdx : Z; firstNonSlashEnd : Z }.

(** [code === suffix.charCodeAt(k)] *)
Definition codeAt_eqb (code : N) (suffix : jsstring) (k : Z) : bool :=
  match nth_error suffix (Z.to_nat k) with
  | Some c => N.eqb code c
  | None => false
  end.

(** The loop of [basename] taken when a non-empty suffix no longer than the
    path is given. *)
Fixpoint basename_suffix_loop (suffix : jsstring) (rs : list N) (i : Z)
    (st : base_state) : base_state :=
  match rs with
  | [] => st
  | code :: rs' =>
      if N.eqb code CHAR_FORWARD_SLASH then
        if negb (b_matchedSlash st) then
          BaseState (i + 1) (b_end st) (b_matchedSlash st)
                    (extIdx st) (firstNonSlashEnd st)
        else basename_suffix_loop suffix rs' (i - 1) st
      else
        let st1 :=
          if firstNonSlashEnd st =? -1
          then BaseState (b_start st) (b_end st) false (extIdx st) (i + 1)
          else st in
        let st2 :=
          if extIdx st1 >=? 0 then
            if codeAt_eqb code suffix (extIdx st1) then
              let e := extIdx st1 - 1 in
              if e =? -1
              then BaseState (b_start st1) i (b_matchedSlash st1) e
                             (firstNonSlashEnd st1)
              else BaseState (b_start st1) (b_end st1) (b_matchedSlash st1) e
                             (firstNonSlashEnd st1)
            else BaseState (b_start st1) (firstNonSlashEnd st1)
                           (b_matchedSlash st1) (-1) (firstNonSlashEnd st1)
          else st1 in
        basename_suffix_loop suffix rs' (i - 1) st2
  end.

(** The loop of [basename] without a usable suffix; only [start], [end] and
    [matchedSlash] are used. *)
Fixpoint basename_plain_loop (rs : list N) (i : Z) (st : base_state)
    : base_state :=
  match rs with
  | [] => st
  | code :: rs' =>
      if N.eqb code CHAR_FORWARD_SLASH then
        if negb (b_matchedSlash st) then
          BaseState (i + 1) (b_end st) (b_matchedSlash st)
                    (extIdx st) (firstNonSlashEnd st)
        else basename_plain_loop rs' (i - 1) st
      else if b_end st =? -1 then
        basename_plain_loop rs' (i - 1)
          (BaseState (b_start st) (i + 1) false (extIdx st)
                     (firstNonSlashEnd st))
      else basename_plain_loop rs' (i - 1) st
  end.

Definition basename (path suffix : jsstring) : jsstring :=
  let len := Z.of_nat (List.length path) in
  let slen := Z.of_nat (List.length suffix) in
  if (0 <? slen) && (slen <=? len) then
    if str_eqb suffix path then []
    else
      let st := basename_suffix_loop suffix (rev path) (len - 1)
                  (BaseState 0 (-1) true (slen - 1) (-1)) in
      let end' :=
        if b_start st =? b_end st then firstNonSlashEnd st
        else if b_end st =? -1 then len
        else b_end st in
      slice path (b_start st) end'
  else
    let st := basename_plain_loop (rev path) (len - 1)
                (BaseState 0 (-1) true (-1) (-1)) in
    if b_end st =? -1 then [] else slice path (b_start st) (b_end st).

(** Shapes of paths, for stating what the two functions compute: a code
    unit that is not a slash, one that is neither a slash nor a dot, and a
    directory part (nothing, or a text that ends with a slash). *)
Definition notSlash (c : N) : Prop := c <> CHAR_FORWARD_SLASH.
Definition plainChar (c : N) : Prop :=
  c <> CHAR_FORWARD_SLASH /\ c <> CHAR_DOT.
Definition dirPart (dir : jsstring) : Prop :=
  dir = [] \/ exists d, dir = d ++ [CHAR_FORWARD_SLASH].

(** A path given by its parts: a directory part, the name of the last
    component without its extension, and that extension (without its dot)
    when there is one. *)
Record sourcePath := mkSourcePath
  { dirOf : jsstring;
    nameOf : jsstring;
    extOf : option jsstring }.

Definition pathText (p : sourcePath) : jsstring :=
  dirOf p ++ nameOf p
    ++ match extOf p with Some e => CHAR_DOT :: e | None => [] end.

(** The parts are what they are called: the name is not empty and has no
    slash, the extension is not empty and has neither slash nor dot, and a
    name without extension has no dot. *)
Definition shaped (p : sourcePath) : Prop :=
  dirPart (dirOf p) /\ nameOf p <> []
  /\ match extOf p with
     | Some e => Forall notSlash (nameOf p) /\ e <> [] /\ Forall plainChar e
     | None => Forall plainChar (nameOf p)
     end.

End Path.

(** ** JSON values as [JSON.parse] returns them

    Numbers are restricted to the integers that print in plain decimal
    notation; an object is the list of its own properties in insertion
    order, without duplicate keys. *)

Module Json.

Set Warnings "-register-all".

Inductive json :=
| JNull
| JBool (b : bool)
| JNum (z : Z)
| JStr (s : jsstring)
| JArr (items : list json)
| JObj (fields : list (jsstring * json)).

(** [ToBoolean]: the falsy values are [null], [false], [0] and the empty
    string; [undefined] (an absent property) is handled by the callers. *)
Definition truthy (v : json) : bool :=
  match v with
  | JNull => false
  | JBool b => b
  | JNum z => negb (z =? 0)%Z
  | JStr s => match s with [] => false | _ => true end
  | JArr _ => true
  | JObj _ => true
  end.

Fixpoint lookup (key : jsstring) (fields : list (jsstring * json))
    : option json :=
  match fields with
  | [] => None
  | (k, v) :: fs => if str_eqb k key then Some v else lookup key fs
  end.

(** [obj.key = v]: an existing property keeps its position. *)
Fixpoint assign (key : jsstring) (v : json) (fields : list (jsstring * json))
    : list (jsstring * json) :=
  match fields with
  | [] => [(key, v)]
  | (k, w) :: fs =>
      if str_eqb k key then (k, v) :: fs else (k, w) :: assign key v fs
  end.

(** The decimal digits of a non-negative integer. *)
Definition digits (n : N) : jsstring :=
  u (DecimalString.NilZero.string_of_uint (N.to_uint n)).

Definition numToString (z : Z) : jsstring :=
  if (z <? 0)%Z then u "-" ++ digits (Z.abs_N z) else digits (Z.to_N z).

(** [ToString], as applied by a template literal and by
    [Array.prototype.join], on the values for which it returns (see
    [toStringThrows]).  Inside [join] a [null] element prints as the empty
    string.  A number prints in plain decimal notation, which is what
    JavaScript prints for the integers that a number holds exactly
    (magnitude at most 2^53); larger integers are outside the model. *)
Fixpoint toString (v : json) : jsstring :=
  match v with
  | JNull => u "null"
  | JBool true => u "true"
  | JBool false => u "false"
  | JNum z => numToString z
  | JStr s => s
  | JArr items =>
      join (u ",")
        (map (fun e => match e with JNull => [] | _ => toString e end) items)
  | JObj _ => u "[object Object]"
  end.

(** An object read from JSON with a property of its own named [toString]
    hides [Object.prototype.toString] behind a value that cannot be called:
    converting it to a primitive throws a [TypeError], whatever its
    [valueOf] is. *)
Definition hasOwnToString (fields : list (jsstring * json)) : bool :=
  match lookup (u "toString") fields with
  | Some _ => true
  | None => false
  end.

(** Whether [ToString] throws: on such an object, and on an array that has
    one among its elements, at any depth. *)
Fixpoint toStringThrows (v : json) : bool :=
  match v with
  | JObj fields => hasOwnToString fields
  | JArr items => existsb toStringThrows items
  | _ => false
  end.

(** *** [StringToNumber], as far as the sign of the result *)

Definition isDigit (c : N) : bool := ((48 <=? c) && (c <=? 57))%N.

Definition isHexDigit (c : N) : bool :=
  (isDigit c || (97 <=? c) && (c <=? 102) || (65 <=? c) && (c <=? 70))%N.

Definition isOctalDigit (c : N) : bool := ((48 <=? c) && (c <=? 55))%N.

Definition isBinaryDigit (c : N) : bool := ((c =? 48) || (c =? 49))%N.

(** The decimal digits at the front of a text, and what follows them. *)
Fixpoint spanDigits (s : jsstring) : jsstring * jsstring :=
  match s with
  | [] => ([], [])
  | c :: s' =>
      if isDigit c
      then let (d, r) := spanDigits s' in (c :: d, r)
      else ([], s)
  end.

Definition digitsVal (d : jsstring) : Z :=
  fold_left (fun acc c => 10 * acc + Z.of_N (c - 48))%Z d 0%Z.

(** The value of the [ExponentPart] that a literal ends with, [0] when
    there is none; [None] when what is left is not an exponent part. *)
Definition readExponent (s : jsstring) : option Z :=
  match s with
  | [] => Some 0%Z
  | c :: s' =>
      if ((c =? 101) || (c =? 69))%N then
        let (neg, s'') :=
          match s' with
          | 45%N :: r => (true, r)
          | 43%N :: r => (false, r)
          | _ => (false, s')
          end in
        match spanDigits s'' with
        | ((_ :: _) as d, []) =>
            Some (if neg then - digitsVal d else digitsVal d)%Z
        | _ => None
        end
      else None
  end.

(** Whether an unsigned [StrDecimalLiteral] is well formed and its number
    value is positive: [Infinity], or digits with a fraction and an
    exponent whose value does not round to zero (it is above half of the
    smallest positive number, [2^-1074]). *)
Definition decimalPositive (s : jsstring) : bool :=
  if str_eqb s (u "Infinity") then true
  else
    let (d1, r1) := spanDigits s in
    let (d2, r2) :=
      match r1 with
      | 46%N :: r => spanDigits r
      | _ => ([], r1)
      end in
    match d1 ++ d2 with
    | [] => false
    | (_ :: _) as d =>
        match readExponent r2 with
        | None => false
        | Some e =>
            let k := (e - Z.of_nat (List.length d2))%Z in
            ((0 <? digitsVal d)
             && ((0 <=? k) || (10 ^ (- k) <? digitsVal d * 2 ^ 1075)))%Z
        end
    end.

(** Whether a [NonDecimalIntegerLiteral] ([0x], [0o], [0b]) is well formed
    and not zero. *)
Definition nonDecimalPositive (isDigitOfBase : N -> bool) (ds : jsstring)
    : bool :=
  match ds with
  | [] => false
  | _ :: _ =>
      forallb isDigitOfBase ds && existsb (fun c => negb (c =? 48)%N) ds
  end.

(** [StringToNumber(s) > 0]: white space around the literal is ignored;
    the empty text is [0]; a text that is no literal is [NaN]; a literal
    with a minus sign is not positive. *)
Definition stringIsPositive (s : jsstring) : bool :=
  match trim s with
  | [] => false
  | 45%N :: _ => false
  | 43%N :: r => decimalPositive r
  | 48%N :: 120%N :: ds | 48%N :: 88%N :: ds =>
      nonDecimalPositive isHexDigit ds
  | 48%N :: 111%N :: ds | 48%N :: 79%N :: ds =>
      nonDecimalPositive isOctalDigit ds
  | 48%N :: 98%N :: ds | 48%N :: 66%N :: ds =>
      nonDecimalPositive isBinaryDigit ds
  | t => decimalPositive t
  end.

(** [v.length], [None] being [undefined]. *)
Definition lengthOf (v : json) : option json :=
  match v with
  | JStr s => Some (JNum (Z.of_nat (List.length s)))
  | JArr items => Some (JNum (Z.of_nat (List.length items)))
  | JObj fields => lookup (u "length") fields
  | _ => None
  end.

(** What a file holds, as [JSON.parse] sees it: a text it rejects (the
    empty text included), or the serialization of a value.  Writing
    [JSON.stringify(v)] stores [Serialized v]. *)
Inductive filetext :=
| Unparseable (raw : jsstring)
| Serialized (v : json).

(** The [fileContent] string is truthy unless it is empty; a serialization
    is never empty. *)
Definition nonEmptyText (t : filetext) : bool :=
  match t with
  | Unparseable [] => false
  | _ => true
  end.

End Json.
Import Json.

(** ** The answer block (main.ts, lines 159-169) *)

Module Render.

(** A JavaScript computation that returns a value or throws. *)
Inductive result (A : Type) :=
| Ok (a : A)
| Thrown.
Arguments Ok {A} a.
Arguments Thrown {A}.

Definition placeholderAnswer : jsstring := u "No answer provided".
Definition noSourcesLine : jsstring := u "- No sources found.".

(** [v.key] for the keys [answer] and [sources] ([None] is [undefined]):
    reading a property of [null] throws, primitives and arrays have no such
    property. *)
Definition getProp (key : jsstring) (v : json) : result (option json) :=
  match v with
  | JNull => Thrown
  | JObj fields => Ok (lookup key fields)
  | _ => Ok None
  end.

(** [x || d] for a property read [x] and a default [d]. *)
Definition orDefault (x : option json) (d : json) : json :=
  match x with
  | Some v => if truthy v then v else d
  | None => d
  end.

(** [const sourceName = path.basename(item, path.extname(item));
     return `- [[${sourceName}]]`;] *)
Definition sourceLine (item : jsstring) : jsstring :=
  u "- [[" ++ Path.basename item (Path.extname item) ++ u "]]".

(** The callback of [sources.map]: [path.extname] rejects an argument that
    is not a string. *)
Fixpoint mapSources (items : list json) : result (list jsstring) :=
  match items with
  | [] => Ok []
  | JStr s :: rest =>
      match mapSources rest with
      | Ok ls => Ok (sourceLine s :: ls)
      | Thrown => Thrown
      end
  | _ :: _ => Thrown
  end.

(** [x > 0] for a JSON value [x]: the value is converted to a primitive
    ([valueOf], then [toString]) and the primitive to a number.  An object
    converts to a text that is no number unless the conversion throws; an
    array converts to the text of its [join]. *)
Definition isPositive (x : json) : result bool :=
  match x with
  | JNull => Ok false
  | JBool b => Ok b
  | JNum z => Ok (0 <? z)%Z
  | JStr s => Ok (stringIsPositive s)
  | JArr _ =>
      if toStringThrows x then Thrown else Ok (stringIsPositive (toString x))
  | JObj fields => if hasOwnToString fields then Thrown else Ok false
  end.

(** [sources.length > 0]; an [undefined] length is not positive. *)
Definition hasSources (sources : json) : result bool :=
  match lengthOf sources with
  | Some l => isPositive l
  | None => Ok false
  end.

(** [sources.length > 0 ? sources.map(...).join("\n") : "- No sources found."]
    Only an array has a [map] method. *)
Definition sourcesText (sources : json) : result jsstring :=
  match hasSources sources with
  | Thrown => Thrown
  | Ok true =>
      match sources with
      | JArr items =>
          match mapSources items with
          | Ok ls => Ok (join nl ls)
          | Thrown => Thrown
          end
      | _ => Thrown
      end
  | Ok false => Ok noSourcesLine
  end.

(** [`## ${question}\n\n${answer}\n\n### Sources:\n${sourcesText}\n\n---\n\n`],
    for an [answer] on which [ToString] returns. *)
Definition answerContent (question : jsstring) (answer : json)
    (srcText : jsstring) : jsstring :=
  u "## " ++ question ++ nl ++ nl ++ toString answer ++ nl ++ nl
    ++ u "### Sources:" ++ nl ++ srcText ++ nl ++ nl ++ u "---" ++ nl ++ nl.

(** Lines 159-169 of [checkResults], from the parsed response to the block.
    The template literal of line 169 throws when [ToString] of the answer
    does. *)
Definition renderBlock (question : jsstring) (resultsData : json)
    : result jsstring :=
  match getProp (u "answer") resultsData with
  | Thrown => Thrown
  | Ok a =>
      let answer := orDefault a (JStr placeholderAnswer) in
      match getProp (u "sources") resultsData with
      | Thrown => Thrown
      | Ok srcs =>
          let sources := orDefault srcs (JArr []) in
          match sourcesText sources with
          | Thrown => Thrown
          | Ok t =>
              if toStringThrows answer then Thrown
              else Ok (answerContent question answer t)
          end
      end
  end.

End Render.
Import Render.

(** ** Files, locks, the document store and the event trace *)

Module IO.

(** The two files of the bridge: [rag_question.json] and [rag_results.json]. *)
Inductive fpath := QuestionJson | ResultsJson.

Definition fpath_eqb (a b : fpath) : bool :=
  match a, b with
  | QuestionJson, QuestionJson => true
  | ResultsJson, ResultsJson => true
  | _, _ => false
  end.

(** The places of [main.ts] where an I/O call can fail. *)
Inductive site :=
| SiteCreate        (* line 102, writeFileSync of the new request file *)
| SiteLock          (* line 107 *)
| SiteRead          (* line 113 *)
| SiteUpdate        (* line 123 *)
| SiteUnlock        (* line 134 *)
| SiteResLock       (* line 155 *)
| SiteResRead       (* line 157 *)
| SiteVaultRead     (* line 171 *)
| SiteVaultModify   (* line 175 *)
| SiteVaultReread   (* line 177 *)
| SiteResUnlock     (* line 189 *)
| SiteUnlink.       (* line 190 *)

Inductive event :=
| ConsoleLog (msg : jsstring)
| ConsoleError (msg : jsstring)
| Notice (msg : jsstring)
| LockCall (p : fpath)
| UnlockCall (p : fpath)
| ExistsCall (p : fpath)
| WriteCall (p : fpath) (t : filetext)
| UnlinkCall (p : fpath)
| ModifyCall (content : jsstring)
| SetTimeout (retryCount : N) (delay : N).

(** The state that the plugin acts on.  [timer] is the pending callback of
    the polling sequence under way.  A second submission starts a sequence
    of its own, whose timer takes the place of the first in this model: what
    is stated over more than one submission speaks of the request file
    only. *)
Record World := mkWorld
  { questionFile : option filetext;
    resultsFile : option filetext;
    held : list fpath;              (* locks held through proper-lockfile *)
    document : jsstring;            (* the chat note, as the vault stores it *)
    timer : option (N * N);         (* pending [setTimeout]: retry count, delay *)
    now : N;                        (* milliseconds *)
    trace : list event }.           (* oldest first *)

(** What the surroundings decide: which I/O calls fail, what the vault keeps
    of a [modify], and what the answering process does to the response file
    between two checks. *)
Record Env := mkEnv
  { fails : site -> bool;
    store : jsstring -> jsstring -> jsstring;   (* old text, new text *)
    answering : N -> option filetext -> option filetext }.

Definition fileAt (p : fpath) (w : World) : option filetext :=
  match p with
  | QuestionJson => questionFile w
  | ResultsJson => resultsFile w
  end.

Definition setFile (p : fpath) (t : option filetext) (w : World) : World :=
  match p with
  | QuestionJson =>
      mkWorld t (resultsFile w) (held w) (document w) (timer w) (now w)
              (trace w)
  | ResultsJson =>
      mkWorld (questionFile w) t (held w) (document w) (timer w) (now w)
              (trace w)
  end.

Definition setHeld (h : list fpath) (w : World) : World :=
  mkWorld (questionFile w) (resultsFile w) h (document w) (timer w) (now w)
          (trace w).

Definition setDocument (d : jsstring) (w : World) : World :=
  mkWorld (questionFile w) (resultsFile w) (held w) d (timer w) (now w)
          (trace w).

Definition setTimer (t : option (N * N)) (w : World) : World :=
  mkWorld (questionFile w) (resultsFile w) (held w) (document w) t (now w)
          (trace w).

Definition setNow (n : N) (w : World) : World :=
  mkWorld (questionFile w) (resultsFile w) (held w) (document w) (timer w) n
          (trace w).

Definition emit (e : event) (w : World) : World :=
  mkWorld (questionFile w) (resultsFile w) (held w) (document w) (timer w)
          (now w) (trace w ++ [e]).

Definition isHeld (p : fpath) (w : World) : bool :=
  existsb (fpath_eqb p) (held w).

(** *** The monad of the plugin's code: a world, and a value or an exception *)

Definition M (A : Type) : Type := World -> result A * World.

Definition ret {A} (a : A) : M A := fun w => (Ok a, w).
Definition throw {A} : M A := fun w => (Thrown, w).

Definition bind {A B} (m : M A) (k : A -> M B) : M B :=
  fun w => match m w with
           | (Ok a, w') => k a w'
           | (Thrown, w') => (Thrown, w')
           end.

(** [try { body } catch { handler }] *)
Definition tryCatch {A} (body handler : M A) : M A :=
  fun w => match body w with
           | (Ok a, w') => (Ok a, w')
           | (Thrown, w') => handler w'
           end.

(** [try { body } finally { fin }]: an exception of [fin] replaces the
    outcome of [body]. *)
Definition tryFinally {A} (body : M A) (fin : M unit) : M A :=
  fun w => match body w with
           | (r, w') => match fin w' with
                        | (Ok _, w'') => (r, w'')
                        | (Thrown, w'') => (Thrown, w'')
                        end
           end.

Definition log (e : event) : M unit := fun w => (Ok tt, emit e w).

Definition liftResult {A} (r : result A) : M A := fun w => (r, w).

End IO.
Import IO.

Declare Scope plugin_scope.
Delimit Scope plugin_scope with plugin.
Notation "x <- m ;; k" := (bind m (fun x => k))
  (at level 61, m at next level, right associativity) : plugin_scope.
Notation "m ;;; k" := (bind m (fun _ => k))
  (at level 61, right associativity) : plugin_scope.

(** ** The plugin (main.ts, lines 92-205) *)

Module Plugin.

Local Open Scope plugin_scope.

Section WithEnv.

Variable env : Env.

(** [fs.existsSync(p)] *)
Definition existsSync (p : fpath) : M bool :=
  fun w => (Ok (match fileAt p w with Some _ => true | None => false end),
            emit (ExistsCall p) w).

(** [fs.writeFileSync(p, text)] *)
Definition writeFileSync (s : site) (p : fpath) (t : filetext) : M unit :=
  fun w => if fails env s then (Thrown, w)
           else (Ok tt, emit (WriteCall p t) (setFile p (Some t) w)).

(** [fs.readFileSync(p, "utf8")] *)
Definition readFileSync (s : site) (p : fpath) : M filetext :=
  fun w => if fails env s then (Thrown, w)
           else match fileAt p w with
                | Some t => (Ok t, w)
                | None => (Thrown, w)
                end.

(** [JSON.parse(text)] *)
Definition jsonParse (t : filetext) : M json :=
  match t with
  | Unparseable _ => throw
  | Serialized v => ret v
  end.

(** [lock(p)] of proper-lockfile: rejected when the file is missing or the
    lock is already held. *)
Definition lock (s : site) (p : fpath) : M unit :=
  fun w =>
    let w1 := emit (LockCall p) w in
    if fails env s || isHeld p w
       || match fileAt p w with Some _ => false | None => true end
    then (Thrown, w1)
    else (Ok tt, setHeld (p :: held w1) w1).

(** [unlock(p)] of proper-lockfile: rejected when the lock is not held. *)
Definition unlock (s : site) (p : fpath) : M unit :=
  fun w =>
    let w1 := emit (UnlockCall p) w in
    if fails env s || negb (isHeld p w)
    then (Thrown, w1)
    else (Ok tt, setHeld (filter (fun q => negb (fpath_eqb p q)) (held w1)) w1).

(** [fs.unlink(p, callback)] with the callback of lines 190-196. *)
Definition unlink (p : fpath) : M unit :=
  fun w =>
    let w1 := emit (UnlinkCall p) w in
    if fails env SiteUnlink
       || match fileAt p w with Some _ => false | None => true end
    then (Ok tt, emit (ConsoleError (u "Error deleting file:")) w1)
    else (Ok tt, emit (ConsoleLog (u "Results file deleted successfully"))
                      (setFile p None w1)).

(** [this.app.vault.read(file)] *)
Definition vaultRead (s : site) : M jsstring :=
  fun w => if fails env s then (Thrown, w) else (Ok (document w), w).

(** [this.app.vault.modify(file, newContent)] *)
Definition vaultModify (newContent : jsstring) : M unit :=
  fun w => if fails env SiteVaultModify then (Thrown, w)
           else (Ok tt, emit (ModifyCall newContent)
                             (setDocument (store env (document w) newContent) w)).

(** [setTimeout(() => checkResults(retryCount), delay)] *)
Definition setTimeout (retryCount delay : N) : M unit :=
  fun w => (Ok tt, emit (SetTimeout retryCount delay)
                        (setTimer (Some (retryCount, delay)) w)).

Definition maxRetries : N := 30.
Definition retryInterval : N := 2000.

Definition msgNoResults : jsstring :=
  u "Failed to get results. Please try again.".
Definition msgRendered : jsstring := u "Response rendered successfully.".
Definition msgRetrying : jsstring :=
  u "Failed to render the response. Retrying...".
Definition msgQuestionFailed : jsstring :=
  u "Failed to process the question. Please try again.".

(** Lines 154-197: the response file has been found. *)
Definition processFound (question : jsstring) (retryCount : N) : M unit :=
  tryFinally
    (tryCatch
       (lock SiteResLock ResultsJson ;;;
        text <- readFileSync SiteResRead ResultsJson ;;
        resultsData <- jsonParse text ;;
        block <- liftResult (renderBlock question resultsData) ;;
        currentContent <- vaultRead SiteVaultRead ;;
        vaultModify (merge currentContent block) ;;;
        updatedContent <- vaultRead SiteVaultReread ;;
        if includes block updatedContent
        then log (ConsoleLog (u "Content updated successfully.")) ;;;
             log (Notice msgRendered)
        else log (ConsoleError (u "Failed to verify content update.")) ;;;
             log (Notice msgRetrying) ;;;
             setTimeout (retryCount + 1) retryInterval)
       (log (ConsoleError (u "Error processing results:"))))
    (unlock SiteResUnlock ResultsJson ;;;
     unlink ResultsJson).

(** Lines 146-202: one run of [checkResults(retryCount)]. *)
Definition checkResults (question : jsstring) (retryCount : N) : M unit :=
  if (maxRetries <=? retryCount)%N then
    log (ConsoleError (u "Max retries reached. No results available.")) ;;;
    log (Notice msgNoResults)
  else
    found <- existsSync ResultsJson ;;
    if found then processFound question retryCount
    else
      log (ConsoleLog (u "Retrying to fetch results (" ++ digits (retryCount + 1)
                         ++ u "/" ++ digits maxRetries ++ u ")...")) ;;;
      setTimeout (retryCount + 1) retryInterval.

(** [renderResultsWhenAvailable(file, question)], lines 138-205, calls
    [checkResults(0)] and does not await its promise: the first check is
    made inside the caller (the existence test, and the call of [lock]
    when the file is there), and a rejection of the promise reaches no
    handler.  What the check does after its first [await] runs beside the
    [finally] block of the caller; the two work on different files, and the
    model lets the check finish first. *)
Definition renderResultsWhenAvailable (question : jsstring) : M unit :=
  fun w => (Ok tt, snd (checkResults question 0 w)).

(** One turn of the event loop: the pending callback fires after its delay,
    the answering process having had that time to act on the response file.
    A rejected [checkResults] promise has no handler. *)
Definition fire (question : jsstring) (w : World) : option World :=
  match timer w with
  | None => None
  | Some (retryCount, delay) =>
      let w1 := setNow (now w + delay) (setTimer None w) in
      let w2 := setFile ResultsJson
                  (answering env (now w1) (resultsFile w1)) w1 in
      Some (snd (checkResults question retryCount w2))
  end.

(** The polling sequence, up to [fuel] turns: [Some w] when no callback is
    left pending, [None] when the turns ran out first.  A world whose
    pending callback is [(0, 0)] is one in which [checkResults(0)] is about
    to be called: the sequence seen from its start. *)
Fixpoint eventLoop (fuel : nat) (question : jsstring) (w : World)
    : option World :=
  match timer w with
  | None => Some w
  | Some _ =>
      match fuel with
      | O => None
      | S fuel' =>
          match fire question w with
          | Some w' => eventLoop fuel' question w'
          | None => Some w
          end
      end
  end.

(** [let existingData = { question: "" }] *)
Definition defaultRequest : json := JObj [(u "question", JStr [])].

(** Lines 110-119: an I/O or parse error leaves the default in place. *)
Definition readExisting : M json :=
  tryCatch
    (fileContent <- readFileSync SiteRead QuestionJson ;;
     if nonEmptyText fileContent then jsonParse fileContent
     else ret defaultRequest)
    (log (ConsoleError (u "Error parsing JSON, initializing with default:")) ;;;
     ret defaultRequest).

(** [existingData.question = question], seen through the later
    [JSON.stringify]: an object gets the property; an array gets it too but
    does not serialize it; [null] has no properties and, class bodies being
    strict-mode code, neither has a number, a string or a boolean: the
    assignment throws. *)
Definition setQuestion (question : jsstring) (existingData : json) : M json :=
  match existingData with
  | JObj fields => ret (JObj (assign (u "question") (JStr question) fields))
  | JArr items => ret (JArr items)
  | _ => throw
  end.

(** Lines 98-135. *)
Definition handleQuestionSubmit (question : jsstring) : M unit :=
  tryFinally
    (tryCatch
       (present <- existsSync QuestionJson ;;
        (if negb present
         then writeFileSync SiteCreate QuestionJson
                (Serialized (JObj [(u "question", JStr question)])) ;;;
              log (ConsoleLog (u "Question JSON file created successfully."))
         else ret tt) ;;;
        lock SiteLock QuestionJson ;;;
        existingData <- readExisting ;;
        updated <- setQuestion question existingData ;;
        writeFileSync SiteUpdate QuestionJson (Serialized updated) ;;;
        renderResultsWhenAvailable question)
       (log (ConsoleError (u "Error handling question:")) ;;;
        log (Notice msgQuestionFailed)))
    (unlock SiteUnlock QuestionJson).

(** Reading the request file back: the [question] of the record it holds. *)
Definition readQuestion (w : World) : option json :=
  match questionFile w with
  | Some (Serialized v) =>
      match getProp (u "question") v with
      | Ok q => q
      | Thrown => None
      end
  | _ => None
  end.

End WithEnv.

(** *** Observations on a trace *)

Definition notices (t : list event) : list jsstring :=
  flat_map (fun e => match e with Notice m => [m] | _ => [] end) t.

Definition isUnlockOf (p : fpath) (e : event) : bool :=
  match e with UnlockCall q => fpath_eqb p q | _ => false end.

Definition isLockOf (p : fpath) (e : event) : bool :=
  match e with LockCall q => fpath_eqb p q | _ => false end.

Definition isModify (e : event) : bool :=
  match e with ModifyCall _ => true | _ => false end.

Definition isExistsCheck (e : event) : bool :=
  match e with ExistsCall ResultsJson => true | _ => false end.

(** The notice of a failed submission, line 131. *)
Definition isFailureNotice (e : event) : bool :=
  match e with Notice m => str_eqb m msgQuestionFailed | _ => false end.

Definition count (f : event -> bool) (t : list event) : nat :=
  List.length (filter f t).

(** The delays of the [setTimeout] calls of a trace. *)
Definition timerDelays (t : list event) : list N :=
  flat_map (fun e => match e with SetTimeout _ d => [d] | _ => [] end) t.

(** The computation [m] adds to the trace only events that satisfy [P]. *)
Definition emits {A} (P : event -> bool) (m : M A) : Prop :=
  forall w, exists l,
    trace (snd (m w)) = trace w ++ l /\ forallb P l = true.

(** A relation between the world before and the world after that holds
    when nothing happens and carries over a sequence of steps. *)
Record frame := mkFrame
  { rel :> World -> World -> Prop;
    rel_refl : forall w, rel w w;
    rel_trans : forall a b c, rel a b -> rel b c -> rel a c }.

(** The computation [m] stays within [R]. *)
Definition keeps {A} (R : frame) (m : M A) : Prop :=
  forall w, R w (snd (m w)).

(** What a step leaves alone: the response file and its lock, the document
    and the clock. *)
Definition submitRel (w w' : World) : Prop :=
  resultsFile w' = resultsFile w /\ document w' = document w
  /\ now w' = now w /\ isHeld ResultsJson w' = isHeld ResultsJson w.

Definition submitFrame : frame.
Proof.
  refine (mkFrame submitRel _ _); unfold submitRel.
  - intros w. now repeat split.
  - intros a b c [A1 [A2 [A3 A4]]] [B1 [B2 [B3 B4]]].
    repeat split; congruence.
Defined.

(** The same, as long as there is no response file. *)
Definition quietRel (w w' : World) : Prop :=
  resultsFile w = None -> submitRel w w'.

Definition quietFrame : frame.
Proof.
  refine (mkFrame quietRel _ _); unfold quietRel, submitRel.
  - intros w _. now repeat split.
  - intros a b c A B Ha. destruct (A Ha) as [A1 [A2 [A3 A4]]].
    destruct B as [B1 [B2 [B3 B4]]]; [congruence|].
    repeat split; congruence.
Defined.

(** What a check of the poller leaves alone: the request file and its lock,
    and the clock. *)
Definition checkRel (w w' : World) : Prop :=
  questionFile w' = questionFile w /\ now w' = now w
  /\ isHeld QuestionJson w' = isHeld QuestionJson w.

Definition checkFrame : frame.
Proof.
  refine (mkFrame checkRel _ _); unfold checkRel.
  - intros w. now repeat split.
  - intros a b c [A1 [A2 A3]] [B1 [B2 B3]]. repeat split; congruence.
Defined.

(** What the check with counter [n] can do to the pending timer: nothing,
    or set it for the next counter after the fixed delay. *)
Definition timerRel (n : N) (w w' : World) : Prop :=
  timer w' = timer w \/ timer w' = Some ((n + 1)%N, retryInterval).

Definition timerFrame (n : N) : frame.
Proof.
  refine (mkFrame (timerRel n) _ _); unfold timerRel.
  - intros w. now left.
  - intros a b c [A|A] [B|B]; rewrite ?A in *; auto.
Defined.

(** The record that a submission of [question] updates, given what the
    request file held before: its own record when it holds a JSON object,
    the default record when its text does not parse, and the record just
    created when there was no file. *)
Definition priorRecord (prior : option filetext) (question : jsstring)
    : list (jsstring * json) :=
  match prior with
  | Some (Serialized (JObj fields)) => fields
  | Some _ => [(u "question", JStr [])]
  | None => [(u "question", JStr question)]
  end.

(** A quiet surrounding: nothing fails, the vault stores what it is given,
    the answering process [a] is the only actor on the response file. *)
Definition reliable (a : N -> option filetext -> option filetext) : Env :=
  mkEnv (fun _ => false) (fun _ new => new) a.

(** A vault that does not take the modification. *)
Definition staleVault (a : N -> option filetext -> option filetext) : Env :=
  mkEnv (fun _ => false) (fun old _ => old) a.

Definition site_index (s : site) : nat :=
  match s with
  | SiteCreate => 0 | SiteLock => 1 | SiteRead => 2 | SiteUpdate => 3
  | SiteUnlock => 4 | SiteResLock => 5 | SiteResRead => 6
  | SiteVaultRead => 7 | SiteVaultModify => 8 | SiteVaultReread => 9
  | SiteResUnlock => 10 | SiteUnlink => 11
  end.

(** A surrounding where exactly the I/O call at [s0] fails. *)
Definition failingAt (s0 : site) : Env :=
  mkEnv (fun s => Nat.eqb (site_index s) (site_index s0))
        (fun _ new => new) (fun _ f => f).

Definition silent : N -> option filetext -> option filetext :=
  fun _ f => f.

Definition initialWorld (doc : jsstring) : World :=
  mkWorld None None [] doc None 0 [].

(** What the checks of a polling sequence that never finds the response
    file change: they look for the file [checks] times, set timers with the
    delays [delays], show the notices [said], and touch neither the document
    nor the request file. *)
Record idle (w w' : World) (checks : nat) (delays : list N)
    (said : list jsstring) : Prop :=
  { idle_document : document w' = document w;
    idle_question : questionFile w' = questionFile w;
    idle_results : resultsFile w' = None;
    idle_notices : notices (trace w') = notices (trace w) ++ said;
    idle_modify : count isModify (trace w') = count isModify (trace w);
    idle_checks : count isExistsCheck (trace w')
                  = (count isExistsCheck (trace w) + checks)%nat;
    idle_delays : timerDelays (trace w')
                  = timerDelays (trace w) ++ delays }.

(** A response as the specification's scenario has it. *)
Definition sampleResponse : filetext :=
  Serialized (JObj [(u "answer", JStr (u "Y")); (u "sources", JArr [])]).

(** The prior states of the request file that a submission copes with: no
    file, a text that does not parse (the empty text included), or a JSON
    object. *)
Definition copes (prior : option filetext) : Prop :=
  match prior with
  | None => True
  | Some (Unparseable _) => True
  | Some (Serialized (JObj _)) => True
  | Some (Serialized _) => False
  end.

End Plugin.
Import Plugin.


(** ** Settings (main.ts, lines 13-19, 51-61, 228-231) *)

Module Settings.

(** [DEFAULT_SETTINGS] *)
Definition DEFAULT_SETTINGS : list (jsstring * json) :=
  [(u "chatFolderName", JStr (u "RAG Chats"))].

(** The elements of an array or the code units of a string under their
    indices, as properties. *)
Definition indexed (items : list json) : list (jsstring * json) :=
  combine (map (fun i => digits (N.of_nat i)) (seq 0 (List.length items)))
          items.

(** The own enumerable properties that [Object.assign] copies from a
    source: those of an object, the indexed elements of an array or of a
    string, none for [null], [undefined], a number or a boolean. *)
Definition ownProperties (source : option json) : list (jsstring * json) :=
  match source with
  | Some (JObj fields) => fields
  | Some (JArr items) => indexed items
  | Some (JStr s) => indexed (map (fun c => JStr [c]) s)
  | _ => []
  end.

Definition assignAll (target props : list (jsstring * json))
    : list (jsstring * json) :=
  fold_left (fun t kv => assign (fst kv) (snd kv) t) props target.

(** [Object.assign(target, ...sources)] *)
Definition objectAssign (target : list (jsstring * json))
    (sources : list (option json)) : list (jsstring * json) :=
  fold_left (fun t src => assignAll t (ownProperties src)) sources target.

(** [loadSettings]: [Object.assign({}, DEFAULT_SETTINGS, await
    this.loadData())], [data] being what [loadData] resolves to ([None] for
    [undefined]). *)
Definition loadSettings (data : option json) : list (jsstring * json) :=
  objectAssign [] [Some (JObj DEFAULT_SETTINGS); data].

(** [saveSettings]: [saveData(this.settings)]; what the next [loadData]
    resolves to. *)
Definition saveSettings (settings : list (jsstring * json)) : option json :=
  Some (JObj settings).

(** The [onChange] of the settings tab, lines 228-231:
    [this.plugin.settings.chatFolderName = value; await
    this.plugin.saveSettings()]. *)
Definition onChange (value : jsstring) (settings : list (jsstring * json))
    : list (jsstring * json) * option json :=
  let settings' := assign (u "chatFolderName") (JStr value) settings in
  (settings', saveSettings settings').

End Settings.
Import Settings.

(** ** Opening a chat (main.ts, lines 63-75)

    The vault of the host application, as [openRagChat] uses it: entries
    under their paths; [getAbstractFileByPath] returns the entry or [null];
    [createFolder] and [create] add an entry and reject a path that is
    already taken. *)

Module Chat.

Inductive entry :=
| Folder
| Note (content : jsstring).

Definition Vault := list (jsstring * entry).

(** [vault.getAbstractFileByPath(path)] *)
Fixpoint getAbstractFileByPath (path : jsstring) (v : Vault) : option entry :=
  match v with
  | [] => None
  | (p, e) :: v' =>
      if str_eqb p path then Some e else getAbstractFileByPath path v'
  end.

(** The folder that a path lies in: the text before its last slash;
    [None] for a path at the root of the vault. *)
Fixpoint afterSlash (r : jsstring) : option jsstring :=
  match r with
  | [] => None
  | c :: r' => if (c =? 47)%N then Some r' else afterSlash r'
  end.

Definition parentOf (path : jsstring) : option jsstring :=
  match afterSlash (rev path) with
  | Some r => Some (rev r)
  | None => None
  end.

(** [vault.createFolder(path)] rejects when the path is taken. *)
Definition createFolder (path : jsstring) (v : Vault) : result unit * Vault :=
  match getAbstractFileByPath path v with
  | Some _ => (Thrown, v)
  | None => (Ok tt, v ++ [(path, Folder)])
  end.

(** [vault.create(path, data)] rejects when the path is taken and when
    what the path lies in is not a folder of the vault.  The host may reject
    for other reasons (the disk, a name it does not accept), which are not
    modelled: what is stated of a successful run holds whatever they are. *)
Definition create (path data : jsstring) (v : Vault) : result unit * Vault :=
  match getAbstractFileByPath path v with
  | Some _ => (Thrown, v)
  | None =>
      match parentOf path with
      | None => (Ok tt, v ++ [(path, Note data)])
      | Some d =>
          match getAbstractFileByPath d v with
          | Some Folder => (Ok tt, v ++ [(path, Note data)])
          | _ => (Thrown, v)
          end
      end
  end.

Record Host := mkHost
  { vault : Vault;
    opened : list jsstring }.       (* [openFile] calls, oldest first *)

(** [`${this.settings.chatFolderName}/${Date.now()}.md`] *)
Definition newChatFile (chatFolderName : jsstring) (dateNow : N) : jsstring :=
  chatFolderName ++ u "/" ++ digits dateNow ++ u ".md".

(** [openRagChat], for a folder name that is a string and the value
    [dateNow] of [Date.now()]. *)
Definition openRagChat (chatFolderName : jsstring) (dateNow : N) (h : Host)
    : result unit * Host :=
  let afterFolder :=
    match getAbstractFileByPath chatFolderName (vault h) with
    | None => createFolder chatFolderName (vault h)
    | Some _ => (Ok tt, vault h)
    end in
  match afterFolder with
  | (Thrown, v1) => (Thrown, mkHost v1 (opened h))
  | (Ok _, v1) =>
      match create (newChatFile chatFolderName dateNow) getInitialContent
                   v1 with
      | (Thrown, v2) => (Thrown, mkHost v2 (opened h))
      | (Ok _, v2) =>
          (Ok tt, mkHost v2 (opened h ++ [newChatFile chatFolderName dateNow]))
      end
  end.

End Chat.
Import Chat.

(** * Properties *)

(** ** Strings *)

Module JSFacts.

Lemma startsWith_app (p s : jsstring) : startsWith p (p ++ s) = true.
Proof.
  induction p as [|c p IH]; simpl; [reflexivity|].
  now rewrite N.eqb_refl, IH.
Qed.

Lemma startsWith_true (p s : jsstring) :
  startsWith p s = true -> s = p ++ skipn (List.length p) s.
Proof.
  revert s; induction p as [|c p IH]; intros s H; simpl in *.
  - reflexivity.
  - destruct s as [|d s]; [discriminate|].
    apply andb_true_iff in H as [Hc Hp].
    apply N.eqb_eq in Hc; subst d.
    simpl. f_equal. now apply IH.
Qed.

(** [cut] finds an occurrence. *)
Lemma cut_sound (sep s b a : jsstring) :
  cut sep s = Some (b, a) -> s = b ++ sep ++ a.
Proof.
  revert b a; induction s as [|c s IH]; intros b a H.
  - simpl in H. destruct (startsWith sep []) eqn:E; [|discriminate].
    injection H as <- <-. now apply startsWith_true in E.
  - simpl in H. destruct (startsWith sep (c :: s)) eqn:E.
    + injection H as <- <-. now apply startsWith_true in E.
    + destruct (cut sep s) as [[b' a']|] eqn:C; [|discriminate].
      injection H as <- <-. simpl. f_equal. now apply IH.
Qed.

(** [cut] fails exactly on the texts without occurrence. *)
Lemma cut_none_includes (sep s : jsstring) :
  cut sep s = None <-> includes sep s = false.
Proof.
  induction s as [|c s IH]; simpl.
  - destruct (startsWith sep []); simpl; split; congruence.
  - destruct (startsWith sep (c :: s)); simpl.
    + split; congruence.
    + destruct (cut sep s) as [[b a]|].
      * split; [congruence|]. intros H. apply IH in H. discriminate.
      * split; [|reflexivity]. intros _. now apply IH.
Qed.

(** The occurrence found by [cut] is the leftmost one: cutting a text
    written [b ++ sep ++ a] gives back [b] and [a] as soon as [sep] does not
    begin anywhere inside [b]. *)
Lemma cut_leftmost (sep b a : jsstring) :
  (forall k, (k < List.length b)%nat ->
             startsWith sep (skipn k (b ++ sep ++ a)) = false) ->
  cut sep (b ++ sep ++ a) = Some (b, a).
Proof.
  induction b as [|c b IH]; intros H.
  - simpl app. destruct (sep ++ a) as [|x r] eqn:E.
    + destruct sep; [|discriminate]. simpl in E; subst a. reflexivity.
    + rewrite <- E.
      assert (S : startsWith sep (sep ++ a) = true) by apply startsWith_app.
      assert (K : skipn (List.length sep) (sep ++ a) = a).
      { rewrite skipn_app, skipn_all, Nat.sub_diag. reflexivity. }
      rewrite E in *. simpl. simpl in S. rewrite S. now rewrite K.
  - assert (H0 := H 0%nat ltac:(simpl; lia)).
    simpl in H0. simpl. rewrite H0.
    rewrite IH; [reflexivity|].
    intros k Hk. apply (H (S k)). simpl. lia.
Qed.

Lemma split_rounds_nonempty (n : nat) (sep s : jsstring) :
  split_rounds n sep s <> [].
Proof.
  destruct n; simpl; [discriminate|].
  destruct (cut sep s) as [[b a]|]; discriminate.
Qed.

Lemma split_nonempty (sep s : jsstring) : split sep s <> [].
Proof. apply split_rounds_nonempty. Qed.

Lemma join_cons (sep p : jsstring) (ps : list jsstring) :
  ps <> [] -> join sep (p :: ps) = p ++ sep ++ join sep ps.
Proof. destruct ps; [congruence|reflexivity]. Qed.

(** Joining the pieces with the separator gives the text back: the later
    occurrences of the separator are restored where they were. *)
Lemma join_split_rounds (n : nat) (sep s : jsstring) :
  join sep (split_rounds n sep s) = s.
Proof.
  revert s; induction n as [|n IH]; intros s; simpl; [reflexivity|].
  destruct (cut sep s) as [[b a]|] eqn:C; [|reflexivity].
  rewrite join_cons by apply split_rounds_nonempty.
  rewrite IH. symmetry. now apply cut_sound.
Qed.

Lemma join_split (sep s : jsstring) : join sep (split sep s) = s.
Proof. apply join_split_rounds. Qed.

End JSFacts.

Module TrimFacts.

Lemma trimStart_decomp (s : jsstring) :
  exists l, s = l ++ trimStart s /\ forallb isWhite l = true.
Proof.
  induction s as [|c s [l [E W]]]; simpl.
  - now exists [].
  - destruct (isWhite c) eqn:Hc.
    + exists (c :: l). simpl. rewrite Hc, W. split; [now f_equal|reflexivity].
    + now exists [].
Qed.

Lemma trimEnd_decomp (s : jsstring) :
  exists r, s = trimEnd s ++ r /\ forallb isWhite r = true.
Proof.
  unfold trimEnd. destruct (trimStart_decomp (rev s)) as [l [E W]].
  exists (rev l). split.
  - rewrite <- rev_app_distr, <- E. now rewrite rev_involutive.
  - rewrite forallb_forall in *. intros x Hx. apply W. now apply in_rev.
Qed.

(** [trim] removes white space at both ends and nothing else. *)
Lemma trim_decomp (s : jsstring) :
  exists l r, s = l ++ trim s ++ r
              /\ forallb isWhite l = true /\ forallb isWhite r = true.
Proof.
  unfold trim.
  destruct (trimStart_decomp s) as [l [El Wl]].
  destruct (trimEnd_decomp (trimStart s)) as [r [Er Wr]].
  exists l, r. split; [|now split].
  now rewrite <- Er.
Qed.

(** A text that neither begins nor ends with white space is its own trim. *)
Lemma trimStart_id (c : N) (s : jsstring) :
  isWhite c = false -> trimStart (c :: s) = c :: s.
Proof. intros H. simpl. now rewrite H. Qed.

(** What [trimStart] leaves does not begin with white space. *)
Lemma trimStart_begins (s t : jsstring) (c : N) :
  trimStart s = c :: t -> isWhite c = false.
Proof.
  induction s as [|x s IH]; simpl; [discriminate|].
  destruct (isWhite x) eqn:Hx; [exact IH|].
  intros E. injection E as -> _. exact Hx.
Qed.

(** What [trim] leaves does not begin with white space. *)
Lemma trim_begins (s t : jsstring) (c : N) :
  trim s = c :: t -> isWhite c = false.
Proof.
  unfold trim. intros E.
  destruct (trimEnd_decomp (trimStart s)) as [r [D _]].
  rewrite E in D. simpl in D. exact (trimStart_begins _ D).
Qed.

(** What [trim] leaves does not end with white space. *)
Lemma trim_ends (s t : jsstring) (c : N) :
  trim s = t ++ [c] -> isWhite c = false.
Proof.
  unfold trim, trimEnd. intros E.
  apply (f_equal (@rev N)) in E.
  rewrite rev_involutive, rev_app_distr in E. simpl in E.
  exact (trimStart_begins _ E).
Qed.

End TrimFacts.

(** ** Document merge *)

Module MergeFacts.

Import JSFacts TrimFacts.

(** The merge in terms of the two regions of the text. *)
Lemma merge_regions (text block : jsstring) :
  merge text block =
  trim (headerOf text) ++ nl ++ nl ++ delimiter ++ nl ++ nl
    ++ block ++ trim (restOf text).
Proof.
  unfold merge, split, headerOf, restOf.
  destruct text as [|c t].
  - reflexivity.
  - cbn [List.length split_rounds].
    destruct (cut delimiter (c :: t)) as [[b a]|] eqn:C.
    + now rewrite join_split_rounds.
    + reflexivity.
Qed.

(** A delimiter that begins inside the header is seen in the header followed
    by two dashes. *)
Lemma delimiter_window (h : N) (t rest : jsstring) :
  startsWith delimiter ((h :: t) ++ delimiter ++ rest)
  = startsWith delimiter ((h :: t) ++ u "--").
Proof.
  destruct t as [|t1 [|t2 t]]; cbn;
    repeat match goal with |- context [N.eqb ?a ?b] => destruct (N.eqb a b) end;
    reflexivity.
Qed.

Lemma includes_false_skipn (p s : jsstring) (k : nat) :
  includes p s = false -> (k <= List.length s)%nat ->
  startsWith p (skipn k s) = false.
Proof.
  revert k; induction s as [|c s IH]; intros k H Hk.
  - simpl in Hk. assert (k = 0%nat) by lia. subst k.
    simpl in *. now apply orb_false_iff in H as [H _].
  - simpl in H. apply orb_false_iff in H as [H1 H2].
    destruct k as [|k]; [exact H1|].
    simpl. apply IH; [exact H2|]. simpl in Hk. lia.
Qed.

(** When no delimiter begins inside [header], cutting
    [header ++ delimiter ++ rest] finds exactly these two regions. *)
Lemma first_delimiter (header rest : jsstring) :
  includes delimiter (header ++ u "--") = false ->
  cut delimiter (header ++ delimiter ++ rest) = Some (header, rest).
Proof.
  intros H. apply cut_leftmost. intros k Hk.
  rewrite skipn_app. replace (k - List.length header)%nat with 0%nat by lia.
  cbn [skipn].
  destruct (skipn k header) as [|h t] eqn:E.
  - apply (f_equal (@List.length N)) in E. rewrite length_skipn in E.
    simpl in E. lia.
  - rewrite delimiter_window.
    assert (K := @includes_false_skipn delimiter (header ++ u "--") k H).
    rewrite skipn_app, E in K.
    replace (k - List.length header)%nat with 0%nat in K by lia.
    apply K. rewrite length_app. lia.
Qed.

Lemma includes_unfold (p s : jsstring) :
  includes p s
  = startsWith p s || match s with [] => false | _ :: s' => includes p s' end.
Proof. destruct s; reflexivity. Qed.

Lemma includes_app (p pre suf : jsstring) :
  includes p (pre ++ p ++ suf) = true.
Proof.
  induction pre as [|c pre IH].
  - simpl app. rewrite includes_unfold, startsWith_app. reflexivity.
  - simpl. rewrite IH. apply orb_true_r.
Qed.

(** The merged text contains the answer block: with a vault that stores
    what it is given, the verification of line 178 passes. *)
Lemma merge_includes_block (text block : jsstring) :
  includes block (merge text block) = true.
Proof.
  rewrite merge_regions.
  replace (trim (headerOf text) ++ nl ++ nl ++ delimiter ++ nl ++ nl
             ++ block ++ trim (restOf text))
    with ((trim (headerOf text) ++ nl ++ nl ++ delimiter ++ nl ++ nl)
             ++ block ++ trim (restOf text))
    by (now rewrite <- !app_assoc).
  apply includes_app.
Qed.

(** C3, as stated, fails on the text of a new chat note: its header begins
    with a line feed and ends with two, which the merge trims away, so the
    header occurs nowhere in the merged text. *)
Lemma merge_header_verbatim_counterexample :
  ~ exists pre suf,
      merge getInitialContent (u "## Q") =
      pre ++ headerOf getInitialContent ++ suf.
Proof.
  intros [pre [suf E]].
  assert (K : includes (headerOf getInitialContent)
                       (merge getInitialContent (u "## Q")) = true).
  { rewrite E. apply includes_app. }
  vm_compute in K. discriminate.
Qed.

(** C3 (amended): for every text and answer block the merged text begins
    with the header region (the content before the first delimiter) trimmed:
    the header with the white space at its two ends removed and nothing
    else changed.  What is removed is white space only, and all of it: the
    trimmed header neither begins nor ends with a white-space code unit. *)
Theorem merge_header_trimmed (text block : jsstring) :
  exists l r suf,
    merge text block = trim (headerOf text) ++ suf
    /\ headerOf text = l ++ trim (headerOf text) ++ r
    /\ forallb isWhite l = true /\ forallb isWhite r = true
    /\ (forall c t, trim (headerOf text) = c :: t -> isWhite c = false)
    /\ (forall t c, trim (headerOf text) = t ++ [c] -> isWhite c = false).
Proof.
  destruct (trim_decomp (headerOf text)) as [l [r [E [Wl Wr]]]].
  exists l, r. eexists. split; [apply merge_regions|].
  split; [exact E|]. split; [exact Wl|]. split; [exact Wr|]. split.
  - intros c t H. eapply trim_begins. exact H.
  - intros t c H. eapply trim_ends. exact H.
Qed.

(** C4, read to the letter (trimmed header, delimiter, blank line, block,
    trimmed rest), fails: the code also puts a blank line between the header
    and the delimiter. *)
Lemma merge_layout_counterexample :
  includes delimiter (u "a" ++ u "--") = false
  /\ merge (u "a" ++ delimiter ++ u "b") (u "X")
     <> trim (u "a") ++ delimiter ++ nl ++ nl ++ u "X" ++ trim (u "b").
Proof. split; [reflexivity|]. vm_compute. discriminate. Qed.

(** C4 (amended): when [header] is the content before the first delimiter
    of the text (no delimiter begins inside it) and [rest] is all that
    follows that delimiter, later delimiters included, the merged text is
    exactly: trimmed header, blank line, delimiter, blank line, answer
    block, trimmed rest. *)
Theorem merge_first_delimiter (header rest block : jsstring) :
  includes delimiter (header ++ u "--") = false ->
  merge (header ++ delimiter ++ rest) block =
  trim header ++ nl ++ nl ++ delimiter ++ nl ++ nl ++ block ++ trim rest.
Proof.
  intros H. rewrite merge_regions. unfold headerOf, restOf.
  now rewrite first_delimiter.
Qed.

Lemma merge_first_delimiter_witness :
  includes delimiter (u " a " ++ u "--") = false
  /\ merge (u " a " ++ delimiter ++ u " b---c ") (u "X")
     = u "a" ++ nl ++ nl ++ u "---" ++ nl ++ nl ++ u "X" ++ u "b---c".
Proof.
  split; [reflexivity|].
  exact (@merge_first_delimiter (u " a ") (u " b---c ") (u "X") eq_refl).
Defined.

(** C8: a text without delimiter is all header: the merged text is the
    trimmed text, then a new delimiter set off by blank lines, then the
    answer block, and nothing after it. *)
Theorem merge_without_delimiter (text block : jsstring) :
  includes delimiter text = false ->
  merge text block
  = trim text ++ nl ++ nl ++ delimiter ++ nl ++ nl ++ block
  /\ headerOf text = text /\ restOf text = [].
Proof.
  intros H. apply cut_none_includes in H.
  rewrite merge_regions. unfold headerOf, restOf. rewrite H.
  cbn [trim trimStart trimEnd rev]. now rewrite !app_nil_r.
Qed.

Lemma merge_without_delimiter_witness :
  includes delimiter (u " notes -- ") = false
  /\ merge (u " notes -- ") (u "X")
     = u "notes --" ++ nl ++ nl ++ u "---" ++ nl ++ nl ++ u "X".
Proof.
  split; [reflexivity|].
  exact (proj1 (@merge_without_delimiter (u " notes -- ") (u "X") eq_refl)).
Defined.

End MergeFacts.

(** ** Base name and extension *)

Module PathFacts.

Import Path.

Local Open Scope Z_scope.

Lemma slice_middle (a b c : jsstring) :
  slice (a ++ b ++ c) (Z.of_nat (List.length a))
        (Z.of_nat (List.length a) + Z.of_nat (List.length b)) = b.
Proof.
  unfold slice. rewrite !length_app.
  set (la := List.length a). set (lb := List.length b).
  set (lc := List.length c).
  replace (Z.of_nat la <? 0) with false by (symmetry; apply Z.ltb_ge; lia).
  replace (Z.of_nat la + Z.of_nat lb <? 0) with false
    by (symmetry; apply Z.ltb_ge; lia).
  rewrite !Z.min_l by lia.
  replace (Z.to_nat (Z.max (Z.of_nat la + Z.of_nat lb - Z.of_nat la) 0))
    with lb by lia.
  rewrite Nat2Z.id. subst la lb.
  rewrite skipn_app, skipn_all, Nat.sub_diag. simpl.
  rewrite firstn_app, firstn_all, Nat.sub_diag. simpl. apply app_nil_r.
Qed.

(** *** [extname] *)

Ltac ext_simp :=
  cbn [app List.length extname_loop startDot startPart ext_end
       ext_matchedSlash preDotState negb].

Lemma ext_first (c : N) (rs : list N) (i : Z) :
  plainChar c ->
  extname_loop (c :: rs) i (ExtState (-1) 0 (-1) true 0)
  = extname_loop rs (i - 1) (ExtState (-1) 0 (i + 1) false 0).
Proof.
  intros [H1 H2]. apply N.eqb_neq in H1, H2.
  ext_simp. rewrite H1, H2. ext_simp. reflexivity.
Qed.

Lemma ext_plain (l rs : list N) (i sp e : Z) :
  Forall plainChar l -> e <> -1 ->
  extname_loop (l ++ rs) i (ExtState (-1) sp e false 0)
  = extname_loop rs (i - Z.of_nat (List.length l)) (ExtState (-1) sp e false 0).
Proof.
  intros Hl He. revert i. induction Hl as [|c l [H1 H2] Hl IH]; intros i.
  - simpl. f_equal. lia.
  - apply N.eqb_neq in H1, H2. apply Z.eqb_neq in He.
    ext_simp. rewrite H1, He, H2. ext_simp.
    rewrite IH. f_equal. lia.
Qed.

Lemma ext_dot (rs : list N) (i sp e : Z) :
  e <> -1 ->
  extname_loop (CHAR_DOT :: rs) i (ExtState (-1) sp e false 0)
  = extname_loop rs (i - 1) (ExtState i sp e false 0).
Proof.
  intros He. apply Z.eqb_neq in He.
  ext_simp. rewrite He. reflexivity.
Qed.

Lemma ext_stem (l rs : list N) (i sd sp e p : Z) :
  Forall notSlash l -> sd <> -1 -> e <> -1 ->
  exists p',
    extname_loop (l ++ rs) i (ExtState sd sp e false p)
    = extname_loop rs (i - Z.of_nat (List.length l)) (ExtState sd sp e false p')
    /\ (p <> 0 \/ l <> [] -> p' <> 0).
Proof.
  intros Hl Hsd He. revert i p.
  induction Hl as [|c l H1 Hl IH]; intros i p.
  - exists p. split; [simpl; f_equal; lia|]. intros [H|H]; congruence.
  - apply N.eqb_neq in H1.
    assert (Hsd' := Hsd). assert (He' := He).
    apply Z.eqb_neq in Hsd', He'.
    ext_simp. rewrite H1, He'.
    destruct (N.eqb c CHAR_DOT); ext_simp; rewrite Hsd'; ext_simp.
    + destruct (p =? 1) eqn:Hp; ext_simp.
      * apply Z.eqb_eq in Hp. subst p.
        destruct (IH (i - 1) 1) as [p' [E K]].
        exists p'. split; [rewrite E; f_equal; lia|].
        intros _. apply K. left. lia.
      * destruct (IH (i - 1) 1) as [p' [E K]].
        exists p'. split; [rewrite E; f_equal; lia|].
        intros _. apply K. left. lia.
    + destruct (IH (i - 1) (-1)) as [p' [E K]].
      exists p'. split; [rewrite E; f_equal; lia|].
      intros _. apply K. left. lia.
Qed.

Lemma ext_stop (dir : jsstring) (i sd sp e p : Z) :
  dirPart dir -> i = Z.of_nat (List.length dir) - 1 ->
  exists sp',
    extname_loop (rev dir) i (ExtState sd sp e false p)
    = ExtState sd sp' e false p.
Proof.
  intros [->|[d ->]] Hi.
  - now exists sp.
  - rewrite rev_app_distr. simpl. now eexists.
Qed.

Lemma rev_nonempty (l : jsstring) :
  l <> [] -> exists c l', rev l = c :: l' /\ List.length l = S (List.length l').
Proof.
  intros H. destruct (rev l) as [|c l'] eqn:E.
  - apply (f_equal (@rev N)) in E. rewrite rev_involutive in E. contradiction.
  - exists c, l'. split; [reflexivity|].
    rewrite <- (length_rev l), E. reflexivity.
Qed.

(** The extension of [dir ++ stem ++ "." ++ ext] is ["." ++ ext]. *)
Lemma extname_of (dir stem ext : jsstring) :
  dirPart dir -> stem <> [] -> Forall notSlash stem ->
  ext <> [] -> Forall plainChar ext ->
  extname (dir ++ stem ++ CHAR_DOT :: ext) = CHAR_DOT :: ext.
Proof.
  intros Hd Hs Fs He Fe. unfold extname.
  rewrite !rev_app_distr. cbn [rev]. rewrite <- !app_assoc. cbn [app].
  rewrite !length_app. cbn [List.length].
  destruct (rev_nonempty He) as [c [l [Er El]]].
  assert (Fr : Forall plainChar (c :: l)) by (rewrite <- Er; now apply Forall_rev).
  rewrite Er. inversion Fr as [|? ? Hc Fl]; subst.
  cbn [app]. rewrite ext_first by exact Hc.
  rewrite ext_plain by (try exact Fl; lia).
  rewrite ext_dot by lia.
  destruct (@ext_stem (rev stem) (rev dir)
              (Z.of_nat (List.length dir + (List.length stem + S (List.length ext)))
               - 1 - 1 - Z.of_nat (List.length l) - 1)
              (Z.of_nat (List.length dir + (List.length stem + S (List.length ext)))
               - 1 - 1 - Z.of_nat (List.length l))
              0
              (Z.of_nat (List.length dir + (List.length stem + S (List.length ext)))
               - 1 + 1)
              0) as [p' [E K]];
    [now apply Forall_rev|lia|lia|].
  rewrite E. clear E.
  destruct (@ext_stop dir
              (Z.of_nat (List.length dir + (List.length stem + S (List.length ext)))
               - 1 - 1 - Z.of_nat (List.length l) - 1
               - Z.of_nat (List.length (rev stem)))
              (Z.of_nat (List.length dir + (List.length stem + S (List.length ext)))
               - 1 - 1 - Z.of_nat (List.length l))
              0
              (Z.of_nat (List.length dir + (List.length stem + S (List.length ext)))
               - 1 + 1)
              p' Hd) as [sp' E];
    [rewrite length_rev; lia|].
  rewrite E. clear E.
  cbn [startDot startPart ext_end ext_matchedSlash preDotState].
  assert (P0 : p' <> 0).
  { apply K. right. intros R. apply (f_equal (@List.length N)) in R.
    rewrite length_rev in R. destruct stem; [congruence|discriminate]. }
  repeat match goal with
         | |- context [?x =? ?y] =>
             replace (x =? y) with false by (symmetry; apply Z.eqb_neq; lia)
         end.
  rewrite andb_false_r. cbn [orb andb].
  replace (dir ++ stem ++ CHAR_DOT :: ext)
    with ((dir ++ stem) ++ (CHAR_DOT :: ext) ++ []) 
    by (now rewrite app_nil_r, <- app_assoc).
  match goal with
  | |- slice _ ?a ?b = _ =>
      replace a with (Z.of_nat (List.length (dir ++ stem)))
        by (rewrite length_app; lia);
      replace b with (Z.of_nat (List.length (dir ++ stem))
                      + Z.of_nat (List.length (CHAR_DOT :: ext)))
        by (rewrite length_app; cbn [List.length]; lia)
  end.
  apply slice_middle.
Qed.

(** *** [basename] with the extension as suffix *)

Ltac base_simp :=
  cbn [app List.length basename_suffix_loop b_start b_end b_matchedSlash
       extIdx firstNonSlashEnd negb].

Lemma codeAt_middle (c : N) (x y : jsstring) :
  codeAt_eqb c (x ++ c :: y) (Z.of_nat (List.length x)) = true.
Proof.
  unfold codeAt_eqb. rewrite Nat2Z.id, nth_error_app2 by lia.
  rewrite Nat.sub_diag. simpl. apply N.eqb_refl.
Qed.

Lemma base_first (c : N) (a : jsstring) (rs : list N) (i : Z) :
  notSlash c -> a <> [] ->
  basename_suffix_loop (a ++ [c]) (c :: rs) i
    (BaseState 0 (-1) true (Z.of_nat (List.length a)) (-1))
  = basename_suffix_loop (a ++ [c]) rs (i - 1)
      (BaseState 0 (-1) false (Z.of_nat (List.length a) - 1) (i + 1)).
Proof.
  intros Hc Ha. apply N.eqb_neq in Hc.
  base_simp. rewrite Hc. base_simp.
  replace (-1 =? -1) with true by reflexivity. base_simp.
  replace (Z.of_nat (List.length a) >=? 0) with true
    by (symmetry; apply Z.geb_le; lia).
  rewrite codeAt_middle.
  replace (Z.of_nat (List.length a) - 1 =? -1) with false; [reflexivity|].
  symmetry. apply Z.eqb_neq. destruct a; [congruence|]. cbn [List.length]. lia.
Qed.

Lemma base_match (l a b : jsstring) (rs : list N) (i s e f : Z) :
  Forall notSlash l -> a <> [] -> f <> -1 ->
  basename_suffix_loop (a ++ rev l ++ b) (l ++ rs) i
    (BaseState s e false
       (Z.of_nat (List.length a) + Z.of_nat (List.length l) - 1) f)
  = basename_suffix_loop (a ++ rev l ++ b) rs (i - Z.of_nat (List.length l))
      (BaseState s e false (Z.of_nat (List.length a) - 1) f).
Proof.
  intros Hl Ha Hf. revert b i.
  induction Hl as [|c l Hc Hl IH]; intros b i.
  - simpl. f_equal; [lia|f_equal; lia].
  - apply N.eqb_neq in Hc. assert (Hf' := Hf). apply Z.eqb_neq in Hf'.
    base_simp. rewrite Hc, Hf'. base_simp.
    replace (Z.of_nat (List.length a) + Z.of_nat (S (List.length l)) - 1 >=? 0)
      with true by (symmetry; apply Z.geb_le; lia).
    replace (a ++ rev (c :: l) ++ b) with ((a ++ rev l) ++ c :: b)
      by (cbn [rev]; now rewrite <- !app_assoc).
    replace (Z.of_nat (List.length a) + Z.of_nat (S (List.length l)) - 1)
      with (Z.of_nat (List.length (a ++ rev l)))
      by (rewrite length_app, length_rev; lia).
    rewrite codeAt_middle.
    replace (Z.of_nat (List.length (a ++ rev l)) - 1 =? -1) with false.
    2:{ symmetry. apply Z.eqb_neq. rewrite length_app.
        destruct a; [congruence|]. cbn [List.length]. lia. }
    replace ((a ++ rev l) ++ c :: b) with (a ++ rev l ++ c :: b)
      by (now rewrite <- app_assoc).
    replace (Z.of_nat (List.length (a ++ rev l)) - 1)
      with (Z.of_nat (List.length a) + Z.of_nat (List.length l) - 1)
      by (rewrite length_app, length_rev; lia).
    rewrite IH. f_equal. lia.
Qed.

Lemma base_dot (ext : jsstring) (rs : list N) (i s e f : Z) :
  f <> -1 ->
  basename_suffix_loop (CHAR_DOT :: ext) (CHAR_DOT :: rs) i
    (BaseState s e false 0 f)
  = basename_suffix_loop (CHAR_DOT :: ext) rs (i - 1)
      (BaseState s i false (-1) f).
Proof.
  intros Hf. apply Z.eqb_neq in Hf.
  base_simp. rewrite Hf. reflexivity.
Qed.

Lemma base_stem (suffix l : jsstring) (rs : list N) (i s e f : Z) :
  Forall notSlash l -> f <> -1 ->
  basename_suffix_loop suffix (l ++ rs) i (BaseState s e false (-1) f)
  = basename_suffix_loop suffix rs (i - Z.of_nat (List.length l))
      (BaseState s e false (-1) f).
Proof.
  intros Hl Hf. revert i. induction Hl as [|c l Hc Hl IH]; intros i.
  - simpl. f_equal. lia.
  - apply N.eqb_neq in Hc. assert (Hf' := Hf). apply Z.eqb_neq in Hf'.
    base_simp. rewrite Hc, Hf'. base_simp.
    replace (-1 >=? 0) with false by reflexivity.
    rewrite IH. f_equal. lia.
Qed.

Lemma base_stop (suffix dir : jsstring) (i e f : Z) :
  dirPart dir -> i = Z.of_nat (List.length dir) - 1 ->
  basename_suffix_loop suffix (rev dir) i (BaseState 0 e false (-1) f)
  = BaseState (Z.of_nat (List.length dir)) e false (-1) f.
Proof.
  intros [->|[d ->]] Hi.
  - reflexivity.
  - rewrite rev_app_distr. simpl. f_equal. lia.
Qed.

Lemma base_loop (dir stem l : jsstring) (c : N) :
  dirPart dir -> Forall notSlash stem -> notSlash c -> Forall notSlash l ->
  basename_suffix_loop ((CHAR_DOT :: rev l) ++ [c])
    (c :: l ++ CHAR_DOT :: rev stem ++ rev dir)
    (Z.of_nat (List.length dir + List.length stem + List.length l) + 1)
    (BaseState 0 (-1) true (Z.of_nat (List.length (CHAR_DOT :: rev l))) (-1))
  = BaseState (Z.of_nat (List.length dir))
      (Z.of_nat (List.length dir + List.length stem)) false (-1)
      (Z.of_nat (List.length dir + List.length stem + List.length l) + 2).
Proof.
  intros Hd Fs Hc Fl.
  rewrite base_first by (try exact Hc; discriminate).
  replace ((CHAR_DOT :: rev l) ++ [c]) with ([CHAR_DOT] ++ rev l ++ [c])
    by reflexivity.
  replace (Z.of_nat (List.length (CHAR_DOT :: rev l)) - 1)
    with (Z.of_nat (List.length [CHAR_DOT]) + Z.of_nat (List.length l) - 1)
    by (cbn [List.length]; rewrite length_rev; lia).
  rewrite base_match by (try exact Fl; try discriminate; lia).
  replace ([CHAR_DOT] ++ rev l ++ [c]) with (CHAR_DOT :: (rev l ++ [c]))
    by reflexivity.
  replace (Z.of_nat (List.length [CHAR_DOT]) - 1) with 0 by reflexivity.
  rewrite base_dot by lia.
  rewrite base_stem by (try (now apply Forall_rev); lia).
  rewrite base_stop; [|exact Hd|rewrite length_rev; lia].
  f_equal; lia.
Qed.

Lemma str_eqb_length (a b : jsstring) :
  str_eqb a b = true -> List.length a = List.length b.
Proof.
  revert b; induction a as [|x a IH]; intros [|y b] H; simpl in *;
    try discriminate; [reflexivity|].
  apply andb_true_iff in H as [_ H]. f_equal. now apply IH.
Qed.

(** The base name of [dir ++ stem ++ "." ++ ext] without its extension is
    [stem]. *)
Lemma basename_of (dir stem ext : jsstring) :
  dirPart dir -> stem <> [] -> Forall notSlash stem ->
  ext <> [] -> Forall plainChar ext ->
  basename (dir ++ stem ++ CHAR_DOT :: ext) (CHAR_DOT :: ext) = stem.
Proof.
  intros Hd Hs Fs He Fe.
  destruct (rev_nonempty He) as [c [l [Er El]]].
  assert (Ex : ext = rev l ++ [c]).
  { rewrite <- (rev_involutive ext), Er. reflexivity. }
  assert (Fr : Forall plainChar (c :: l)) by (rewrite <- Er; now apply Forall_rev).
  inversion Fr as [|? ? [Hc _] Fl]; subst x l0.
  assert (Fl' : Forall notSlash l).
  { eapply Forall_impl; [|exact Fl]. now intros a [Ha _]. }
  assert (Ls : (0 < List.length stem)%nat).
  { destruct stem; [congruence|simpl; lia]. }
  unfold basename.
  assert (Lp : List.length (dir ++ stem ++ CHAR_DOT :: ext)
               = (List.length dir + List.length stem + List.length l + 2)%nat).
  { rewrite !length_app. cbn [List.length]. lia. }
  assert (Lx : List.length (CHAR_DOT :: ext) = (List.length l + 2)%nat).
  { cbn [List.length]. lia. }
  rewrite Lp, Lx.
  replace (0 <? Z.of_nat (List.length l + 2)) with true
    by (symmetry; apply Z.ltb_lt; lia).
  replace (Z.of_nat (List.length l + 2)
           <=? Z.of_nat (List.length dir + List.length stem
                         + List.length l + 2))
    with true by (symmetry; apply Z.leb_le; lia).
  cbn [andb].
  destruct (str_eqb (CHAR_DOT :: ext) (dir ++ stem ++ CHAR_DOT :: ext)) eqn:Q.
  { apply str_eqb_length in Q. rewrite Lp, Lx in Q. lia. }
  replace (rev (dir ++ stem ++ CHAR_DOT :: ext))
    with (c :: l ++ CHAR_DOT :: rev stem ++ rev dir).
  2:{ rewrite !rev_app_distr. cbn [rev]. rewrite Er.
      rewrite <- !app_assoc. reflexivity. }
  replace (Z.of_nat (List.length dir + List.length stem + List.length l + 2) - 1)
    with (Z.of_nat (List.length dir + List.length stem + List.length l) + 1)
    by lia.
  replace (Z.of_nat (List.length l + 2) - 1)
    with (Z.of_nat (List.length (CHAR_DOT :: rev l)))
    by (cbn [List.length]; rewrite length_rev; lia).
  replace (CHAR_DOT :: ext) with ((CHAR_DOT :: rev l) ++ [c])
    by (rewrite Ex; reflexivity).
  rewrite base_loop by assumption.
  cbn [b_start b_end firstNonSlashEnd].
  replace (Z.of_nat (List.length dir)
           =? Z.of_nat (List.length dir + List.length stem))
    with false by (symmetry; apply Z.eqb_neq; lia).
  replace (Z.of_nat (List.length dir + List.length stem) =? -1)
    with false by (symmetry; apply Z.eqb_neq; lia).
  replace (Z.of_nat (List.length dir + List.length stem))
    with (Z.of_nat (List.length dir) + Z.of_nat (List.length stem)) by lia.
  apply slice_middle.
Qed.

(** A source path [dir ++ stem ++ "." ++ ext], whose last component has the
    non-empty stem [stem] and the extension [ext], is shown as [stem]. *)
Lemma sourceLine_of (dir stem ext : jsstring) :
  dirPart dir -> stem <> [] -> Forall notSlash stem ->
  ext <> [] -> Forall plainChar ext ->
  sourceLine (dir ++ stem ++ CHAR_DOT :: ext) = u "- [[" ++ stem ++ u "]]".
Proof.
  intros. unfold sourceLine.
  now rewrite extname_of, basename_of.
Qed.

End PathFacts.

(** ** The answer block *)

Module RenderFacts.

Lemma mapSources_strings (names : list jsstring) :
  mapSources (map JStr names) = Ok (map sourceLine names).
Proof.
  induction names as [|n names IH]; simpl; [reflexivity|].
  now rewrite IH.
Qed.

Lemma hasSources_array (items : list json) :
  hasSources (JArr items) = Ok (negb (Nat.eqb (List.length items) 0)).
Proof.
  unfold hasSources, lengthOf, isPositive. f_equal.
  destruct items; [reflexivity|].
  cbn [List.length Nat.eqb negb]. apply Z.ltb_lt. lia.
Qed.

(** The source section of a list of paths. *)
Lemma sourcesText_strings (names : list jsstring) :
  sourcesText (JArr (map JStr names)) =
  Ok (match names with
      | [] => noSourcesLine
      | _ :: _ => join nl (map sourceLine names)
      end).
Proof.
  unfold sourcesText. rewrite hasSources_array, length_map.
  destruct names as [|n names]; [reflexivity|].
  cbn [List.length Nat.eqb negb]. now rewrite mapSources_strings.
Qed.

(** An absent or falsy property gives way to the default. *)
Lemma orDefault_falsy (x : option json) (d : json) :
  (forall v, x = Some v -> truthy v = false) -> orDefault x d = d.
Proof.
  intros H. destruct x as [v|]; [|reflexivity].
  simpl. now rewrite (H v eq_refl).
Qed.

Lemma orDefault_text (a : jsstring) (d : json) :
  a <> [] -> orDefault (Some (JStr a)) d = JStr a.
Proof. destruct a; [congruence|reflexivity]. Qed.

(** The two paths of the specification's scenario. *)
Example sources_alpha_beta :
  sourcesText (JArr [JStr (u "notes/Alpha.md"); JStr (u "notes/Beta.md")])
  = Ok (u "- [[Alpha]]" ++ nl ++ u "- [[Beta]]").
Proof. reflexivity. Qed.

(** C10: each default stands in for every falsy value of its field, not
    only for an absent one, and on its own.  When [answer] is absent,
    [null], [false], [0] or the empty string, the block shows the text
    [No answer provided] above whatever source section [t] the sources
    give.  When [sources] is absent or falsy ([null] in particular), the
    block shows the line [- No sources found.], the section of the empty
    list, under the answer text.  When both are, it shows both. *)
Theorem falsy_fields_default (question : jsstring)
    (fields : list (jsstring * json)) :
  ((forall v, lookup (u "answer") fields = Some v -> truthy v = false) ->
   forall t,
     sourcesText (orDefault (lookup (u "sources") fields) (JArr [])) = Ok t ->
     renderBlock question (JObj fields)
     = Ok (u "## " ++ question ++ nl ++ nl ++ u "No answer provided"
             ++ nl ++ nl ++ u "### Sources:" ++ nl ++ t
             ++ nl ++ nl ++ u "---" ++ nl ++ nl))
  /\ ((forall v, lookup (u "sources") fields = Some v -> truthy v = false) ->
      forall a,
        lookup (u "answer") fields = Some (JStr a) -> a <> [] ->
        renderBlock question (JObj fields)
        = Ok (u "## " ++ question ++ nl ++ nl ++ a
                ++ nl ++ nl ++ u "### Sources:" ++ nl
                ++ u "- No sources found."
                ++ nl ++ nl ++ u "---" ++ nl ++ nl))
  /\ ((forall v, lookup (u "answer") fields = Some v -> truthy v = false) ->
      (forall v, lookup (u "sources") fields = Some v -> truthy v = false) ->
      renderBlock question (JObj fields)
      = Ok (u "## " ++ question ++ nl ++ nl ++ u "No answer provided"
              ++ nl ++ nl ++ u "### Sources:" ++ nl
              ++ u "- No sources found."
              ++ nl ++ nl ++ u "---" ++ nl ++ nl)).
Proof.
  split; [|split].
  - intros Ha t Ht. unfold renderBlock, getProp. cbv zeta.
    rewrite (orDefault_falsy _ Ha), Ht. reflexivity.
  - intros Hs a Ha Hn. unfold renderBlock, getProp. cbv zeta.
    rewrite (orDefault_falsy _ Hs), Ha, (orDefault_text _ Hn). reflexivity.
  - intros Ha Hs. unfold renderBlock, getProp. cbv zeta.
    rewrite (orDefault_falsy _ Ha), (orDefault_falsy _ Hs). reflexivity.
Qed.

Lemma falsy_fields_default_witness :
  renderBlock (u "Q")
    (JObj [(u "answer", JStr []);
           (u "sources", JArr [JStr (u "notes/Alpha.md")])])
  = Ok (u "## Q" ++ nl ++ nl ++ u "No answer provided" ++ nl ++ nl
          ++ u "### Sources:" ++ nl ++ u "- [[Alpha]]" ++ nl ++ nl
          ++ u "---" ++ nl ++ nl)
  /\ renderBlock (u "Q")
       (JObj [(u "answer", JStr (u "Y")); (u "sources", JNull)])
     = Ok (u "## Q" ++ nl ++ nl ++ u "Y" ++ nl ++ nl
             ++ u "### Sources:" ++ nl ++ u "- No sources found." ++ nl ++ nl
             ++ u "---" ++ nl ++ nl)
  /\ renderBlock (u "Q")
       (JObj [(u "answer", JNum 0); (u "sources", JBool false)])
     = Ok (u "## Q" ++ nl ++ nl ++ u "No answer provided" ++ nl ++ nl
             ++ u "### Sources:" ++ nl ++ u "- No sources found." ++ nl ++ nl
             ++ u "---" ++ nl ++ nl).
Proof.
  split; [|split].
  - refine (proj1 (@falsy_fields_default (u "Q")
              [(u "answer", JStr []);
               (u "sources", JArr [JStr (u "notes/Alpha.md")])])
              _ (u "- [[Alpha]]") eq_refl).
    intros v H; vm_compute in H; injection H as <-; reflexivity.
  - refine (proj1 (proj2 (@falsy_fields_default (u "Q")
              [(u "answer", JStr (u "Y")); (u "sources", JNull)]))
              _ (u "Y") eq_refl _).
    + intros v H; vm_compute in H; injection H as <-; reflexivity.
    + discriminate.
  - refine (proj2 (proj2 (@falsy_fields_default (u "Q")
              [(u "answer", JNum 0); (u "sources", JBool false)])) _ _);
      intros v H; vm_compute in H; injection H as <-; reflexivity.
Defined.

End RenderFacts.

(** ** Which events a computation can add to the trace *)

Module TraceFacts.

Local Open Scope plugin_scope.

Lemma count_app (f : event -> bool) (a b : list event) :
  count f (a ++ b) = (count f a + count f b)%nat.
Proof. unfold count. now rewrite filter_app, length_app. Qed.

Lemma count_none (f : event -> bool) (l : list event) :
  forallb (fun e => negb (f e)) l = true -> count f l = 0%nat.
Proof.
  unfold count. induction l as [|e l IH]; simpl; [reflexivity|].
  intros H. apply andb_true_iff in H as [He Hl].
  destruct (f e); [discriminate|]. now apply IH.
Qed.

Lemma notices_app (a b : list event) :
  notices (a ++ b) = notices a ++ notices b.
Proof. apply flat_map_app. Qed.

Lemma timerDelays_app (a b : list event) :
  timerDelays (a ++ b) = timerDelays a ++ timerDelays b.
Proof. apply flat_map_app. Qed.

Section Emits.

Variable env : Env.
Variable P : event -> bool.

Lemma emits_nothing {A} (m : M A) :
  (forall w, trace (snd (m w)) = trace w) -> emits P m.
Proof. intros H w. exists []. now rewrite H, app_nil_r. Qed.

Lemma emits_one {A} (m : M A) (e : event) :
  P e = true -> (forall w, trace (snd (m w)) = trace w ++ [e]) -> emits P m.
Proof. intros He H w. exists [e]. rewrite H. simpl. now rewrite He. Qed.

Lemma emits_ret {A} (a : A) : emits P (ret a).
Proof. now apply emits_nothing. Qed.

Lemma emits_throw {A} : emits P (@throw A).
Proof. now apply emits_nothing. Qed.

Lemma emits_liftResult {A} (r : result A) : emits P (liftResult r).
Proof. now apply emits_nothing. Qed.

Lemma emits_bind {A B} (m : M A) (k : A -> M B) :
  emits P m -> (forall a, emits P (k a)) -> emits P (bind m k).
Proof.
  intros Hm Hk w. unfold bind.
  destruct (Hm w) as [l1 [E1 F1]].
  destruct (m w) as [[a|] w1]; simpl in E1.
  - destruct (Hk a w1) as [l2 [E2 F2]].
    exists (l1 ++ l2). rewrite E2, E1, app_assoc, forallb_app, F1, F2.
    now split.
  - exists l1. now split.
Qed.

Lemma emits_tryCatch {A} (body handler : M A) :
  emits P body -> emits P handler -> emits P (tryCatch body handler).
Proof.
  intros Hb Hh w. unfold tryCatch.
  destruct (Hb w) as [l1 [E1 F1]].
  destruct (body w) as [[a|] w1]; simpl in E1.
  - exists l1. now split.
  - destruct (Hh w1) as [l2 [E2 F2]].
    exists (l1 ++ l2). rewrite E2, E1, app_assoc, forallb_app, F1, F2.
    now split.
Qed.

Lemma emits_tryFinally {A} (body : M A) (fin : M unit) :
  emits P body -> emits P fin -> emits P (tryFinally body fin).
Proof.
  intros Hb Hf w. unfold tryFinally.
  destruct (Hb w) as [l1 [E1 F1]].
  destruct (body w) as [r w1]; simpl in E1.
  destruct (Hf w1) as [l2 [E2 F2]].
  exists (l1 ++ l2).
  rewrite app_assoc, <- E1, <- E2, forallb_app, F1, F2.
  split; [|reflexivity]. now destruct (fin w1) as [[[]|] w2].
Qed.

Lemma emits_log (e : event) : P e = true -> emits P (log e).
Proof. intros He. now apply emits_one with e. Qed.

Lemma emits_existsSync (p : fpath) :
  P (ExistsCall p) = true -> emits P (existsSync p).
Proof. intros He. now apply emits_one with (ExistsCall p). Qed.

Lemma emits_writeFileSync (s : site) (p : fpath) (t : filetext) :
  P (WriteCall p t) = true -> emits P (writeFileSync env s p t).
Proof.
  intros He w. unfold writeFileSync. destruct (fails env s).
  - exists []. now rewrite app_nil_r.
  - exists [WriteCall p t]. destruct p; simpl; now rewrite He.
Qed.

Lemma emits_readFileSync (s : site) (p : fpath) :
  emits P (readFileSync env s p).
Proof.
  apply emits_nothing. intros w. unfold readFileSync.
  destruct (fails env s); [reflexivity|]. now destruct (fileAt p w).
Qed.

Lemma emits_jsonParse (t : filetext) : emits P (jsonParse t).
Proof. destruct t; [apply emits_throw|apply emits_ret]. Qed.

Lemma emits_lock (s : site) (p : fpath) :
  P (LockCall p) = true -> emits P (lock env s p).
Proof.
  intros He. apply emits_one with (LockCall p); [exact He|].
  intros w. unfold lock.
  now destruct (fails env s || isHeld p w
                || match fileAt p w with Some _ => false | None => true end).
Qed.

Lemma emits_vaultRead (s : site) : emits P (vaultRead env s).
Proof.
  apply emits_nothing. intros w. unfold vaultRead.
  now destruct (fails env s).
Qed.

Lemma emits_vaultModify (c : jsstring) :
  P (ModifyCall c) = true -> emits P (vaultModify env c).
Proof.
  intros He w. unfold vaultModify. destruct (fails env SiteVaultModify).
  - exists []. now rewrite app_nil_r.
  - exists [ModifyCall c]. simpl. now rewrite He.
Qed.

Lemma emits_setTimeout (n d : N) :
  P (SetTimeout n d) = true -> emits P (setTimeout n d).
Proof. intros He. now apply emits_one with (SetTimeout n d). Qed.

Lemma emits_unlock (s : site) (p : fpath) :
  P (UnlockCall p) = true -> emits P (unlock env s p).
Proof.
  intros He. apply emits_one with (UnlockCall p); [exact He|].
  intros w. unfold unlock.
  now destruct (fails env s || negb (isHeld p w)).
Qed.

Lemma emits_unlink (p : fpath) :
  P (UnlinkCall p) = true ->
  P (ConsoleError (u "Error deleting file:")) = true ->
  P (ConsoleLog (u "Results file deleted successfully")) = true ->
  emits P (unlink env p).
Proof.
  intros H1 H2 H3 w. unfold unlink.
  match goal with |- context [if ?b then _ else _] => destruct b end;
    destruct p; eexists;
    (split; [cbn [trace emit setFile snd]; rewrite <- app_assoc; reflexivity|]);
    cbn [forallb app]; now rewrite H1, ?H2, ?H3.
Qed.

(** A promise that is not awaited: its outcome is dropped. *)
Lemma emits_unawaited {A} (m : M A) :
  emits P m -> emits P (fun w => (Ok tt, snd (m w))).
Proof. intros H w. exact (H w). Qed.

Lemma emits_setQuestion (q : jsstring) (v : json) : emits P (setQuestion q v).
Proof. destruct v; first [apply emits_throw | apply emits_ret]. Qed.

End Emits.

End TraceFacts.

(** ** Lock release (C9) *)

Module LockFacts.

Import TraceFacts.

Local Open Scope plugin_scope.

Create HintDb emits.

#[local] Hint Resolve emits_ret emits_throw emits_liftResult emits_readFileSync
  emits_jsonParse emits_vaultRead emits_setQuestion : emits.

(** Walks through a computation built from the primitives of the plugin. *)
Ltac emits_walk :=
  repeat first
    [ apply emits_bind; [|intro]
    | apply emits_tryCatch
    | apply emits_log; reflexivity
    | apply emits_existsSync; reflexivity
    | apply emits_writeFileSync; reflexivity
    | apply emits_lock; reflexivity
    | apply emits_vaultModify; reflexivity
    | apply emits_setTimeout; reflexivity
    | apply emits_tryFinally
    | apply emits_unlock; reflexivity
    | apply emits_unlink; reflexivity
    | match goal with
      | |- emits _ (fun w => (Ok tt, snd (@?m w))) =>
          apply (@emits_unawaited _ _ m)
      end
    | solve [auto with emits]
    | match goal with
      | |- emits _ (if ?b then _ else _) => destruct b
      end ].

Lemma snd_tryFinally {A} (body : M A) (fin : M unit) (w : World) :
  snd (tryFinally body fin w) = snd (fin (snd (body w))).
Proof.
  unfold tryFinally. destruct (body w) as [r w1]. simpl.
  now destruct (fin w1) as [[[]|] w2].
Qed.

(** Lines 98-131 never call [unlock]. *)
Lemma submit_body_no_unlock (env : Env) (question : jsstring) :
  emits (fun e => negb (isUnlockOf QuestionJson e))
    (tryCatch
       (present <- existsSync QuestionJson ;;
        (if negb present
         then writeFileSync env SiteCreate QuestionJson
                (Serialized (JObj [(u "question", JStr question)])) ;;;
              log (ConsoleLog (u "Question JSON file created successfully."))
         else ret tt) ;;;
        lock env SiteLock QuestionJson ;;;
        existingData <- readExisting env ;;
        updated <- setQuestion question existingData ;;
        writeFileSync env SiteUpdate QuestionJson (Serialized updated) ;;;
        renderResultsWhenAvailable env question)
       (log (ConsoleError (u "Error handling question:")) ;;;
        log (Notice msgQuestionFailed))).
Proof.
  unfold readExisting, renderResultsWhenAvailable, checkResults, processFound.
  emits_walk.
Qed.

(** Lines 154-187 never call [unlock]. *)
Lemma found_body_no_unlock (env : Env) (question : jsstring) (retryCount : N) :
  emits (fun e => negb (isUnlockOf ResultsJson e))
    (tryCatch
       (lock env SiteResLock ResultsJson ;;;
        text <- readFileSync env SiteResRead ResultsJson ;;
        resultsData <- jsonParse text ;;
        block <- liftResult (renderBlock question resultsData) ;;
        currentContent <- vaultRead env SiteVaultRead ;;
        vaultModify env (merge currentContent block) ;;;
        updatedContent <- vaultRead env SiteVaultReread ;;
        if includes block updatedContent
        then log (ConsoleLog (u "Content updated successfully.")) ;;;
             log (Notice msgRendered)
        else log (ConsoleError (u "Failed to verify content update.")) ;;;
             log (Notice msgRetrying) ;;;
             setTimeout (retryCount + 1) retryInterval)
       (log (ConsoleError (u "Error processing results:")))).
Proof. emits_walk. Qed.

(** A check never shows the notice of a failed submission. *)
Lemma check_no_failure_notice (env : Env) (question : jsstring)
    (retryCount : N) :
  emits (fun e => negb (isFailureNotice e))
    (checkResults env question retryCount).
Proof. unfold checkResults, processFound. emits_walk. Qed.

(** The handling of a found response does not look for the file again. *)
Lemma found_no_exists_check (env : Env) (question : jsstring)
    (retryCount : N) :
  emits (fun e => negb (isExistsCheck e))
    (processFound env question retryCount).
Proof. unfold processFound. emits_walk. Qed.

(** The [finally] block of lines 188-197 calls [unlock] once, first. *)
Lemma found_finally_trace (env : Env) (w : World) :
  exists l,
    trace (snd ((unlock env SiteResUnlock ResultsJson ;;;
                 unlink env ResultsJson) w))
    = trace w ++ UnlockCall ResultsJson :: l
    /\ count (isUnlockOf ResultsJson) l = 0%nat.
Proof.
  unfold bind, unlock, unlink.
  destruct (fails env SiteResUnlock || negb (isHeld ResultsJson w)).
  - exists []. now split.
  - cbv beta iota zeta.
    match goal with
    | |- context [if ?b then _ else _] => destruct b
    end; eexists;
      (split; [simpl; rewrite <- !app_assoc; simpl; reflexivity|reflexivity]).
Qed.

(** C9: every run of the question submission ends with one call of
    [unlock] on the request file, and every run of the found-response
    handling makes one call of [unlock] on the response file, whatever
    fails on the way.  The call is made even when nothing was acquired: when
    the unlocked creation of the request file fails no [lock] call precedes
    it, and when [lock] itself is rejected no lock is held. *)
Theorem unlock_always_called :
  (forall env question w,
     exists l,
       trace (snd (handleQuestionSubmit env question w))
       = trace w ++ l ++ [UnlockCall QuestionJson]
       /\ count (isUnlockOf QuestionJson) l = 0%nat)
  /\ (forall env question retryCount w,
       exists l1 l2,
         trace (snd (processFound env question retryCount w))
         = trace w ++ l1 ++ UnlockCall ResultsJson :: l2
         /\ count (isUnlockOf ResultsJson) l1 = 0%nat
         /\ count (isUnlockOf ResultsJson) l2 = 0%nat)
  /\ (let w' := snd (handleQuestionSubmit (failingAt SiteCreate) (u "Q")
                       (initialWorld [])) in
      count (isLockOf QuestionJson) (trace w') = 0%nat
      /\ count (isUnlockOf QuestionJson) (trace w') = 1%nat)
  /\ (let w' := snd (handleQuestionSubmit (failingAt SiteLock) (u "Q")
                       (initialWorld [])) in
      held w' = []
      /\ count (isLockOf QuestionJson) (trace w') = 1%nat
      /\ count (isUnlockOf QuestionJson) (trace w') = 1%nat)
  /\ (let w' := snd (processFound (failingAt SiteResLock) (u "Q") 0
                       (setFile ResultsJson (Some (Serialized (JObj [])))
                                (initialWorld []))) in
      held w' = []
      /\ count (isUnlockOf ResultsJson) (trace w') = 1%nat).
Proof.
  split; [|split; [|split; [|split]]].
  - intros env question w. unfold handleQuestionSubmit.
    rewrite snd_tryFinally.
    destruct (submit_body_no_unlock env question w) as [l [E F]].
    exists l. split; [|now apply count_none].
    match goal with
    | |- trace (snd (unlock _ _ _ ?w1)) = _ =>
        transitivity (trace w1 ++ [UnlockCall QuestionJson])
    end.
    + unfold unlock.
      match goal with
      | |- context [if ?b then _ else _] => now destruct b
      end.
    + rewrite E. now rewrite app_assoc.
  - intros env question retryCount w. unfold processFound.
    rewrite snd_tryFinally.
    destruct (found_body_no_unlock env question retryCount w) as [l1 [E F]].
    match goal with
    | |- context [snd (?fin ?w1)] =>
        destruct (found_finally_trace env w1) as [l2 [E2 F2]]
    end.
    exists l1, l2. split; [|split; [now apply count_none|exact F2]].
    rewrite E2, E. now rewrite <- app_assoc.
  - vm_compute. now split.
  - vm_compute. now split.
  - vm_compute. now split.
Qed.

End LockFacts.

(** ** The polling sequence *)

Module PollFacts.

Import TraceFacts.

Local Open Scope plugin_scope.
Local Open Scope N_scope.

#[local] Arguments u : simpl never.
#[local] Arguments digits : simpl never.
#[local] Arguments count : simpl never.
#[local] Arguments notices : simpl never.
#[local] Arguments timerDelays : simpl never.

(** Observations on a trace that has grown by explicit events. *)
Ltac trace_obs :=
  rewrite ?count_app, ?notices_app, ?timerDelays_app;
  unfold count, notices, timerDelays; simpl;
  rewrite ?app_nil_r; solve [reflexivity | lia].

Lemma idle_trans (w w1 w2 : World) c1 c2 d1 d2 s1 s2 :
  idle w w1 c1 d1 s1 -> idle w1 w2 c2 d2 s2 ->
  idle w w2 (c1 + c2) (d1 ++ d2) (s1 ++ s2).
Proof.
  intros [A1 A2 A3 A4 A5 A6 A7] [B1 B2 B3 B4 B5 B6 B7].
  constructor; try congruence.
  - rewrite B4, A4. now rewrite app_assoc.
  - rewrite B6, A6. lia.
  - rewrite B7, A7. now rewrite app_assoc.
Qed.

(** A check below the maximum that finds no response file schedules the
    next one, with the counter incremented, after the fixed delay. *)
Lemma fire_absent (env : Env) (question : jsstring) (w : World) (n d : N) :
  timer w = Some (n, d) -> n < maxRetries -> resultsFile w = None ->
  answering env (now w + d) None = None ->
  exists w',
    fire env question w = Some w'
    /\ timer w' = Some (n + 1, retryInterval)
    /\ now w' = now w + d
    /\ idle w w' 1 [retryInterval] [].
Proof.
  intros Ht Hn Hr Ha. unfold fire. rewrite Ht.
  unfold checkResults.
  apply N.leb_gt in Hn. rewrite Hn.
  eexists. split; [reflexivity|].
  unfold bind, existsSync. cbn [fileAt setFile setNow setTimer resultsFile now].
  rewrite Hr, Ha. cbn.
  repeat split; cbn; trace_obs.
Qed.

(** The check at the maximum gives up: one notice, no timer. *)
Lemma fire_exhausted (env : Env) (question : jsstring) (w : World) (n d : N) :
  timer w = Some (n, d) -> maxRetries <= n -> resultsFile w = None ->
  answering env (now w + d) None = None ->
  exists w',
    fire env question w = Some w'
    /\ timer w' = None
    /\ now w' = now w + d
    /\ idle w w' 0 [] [msgNoResults].
Proof.
  intros Ht Hn Hr Ha. unfold fire. rewrite Ht.
  unfold checkResults.
  apply N.leb_le in Hn. rewrite Hn.
  eexists. split; [reflexivity|].
  unfold bind. cbn [fileAt setFile setNow setTimer resultsFile now].
  rewrite Hr, Ha. cbn.
  repeat split; cbn; trace_obs.
Qed.

Lemma eventLoop_done (env : Env) (fuel : nat) (question : jsstring)
    (w : World) :
  timer w = None -> eventLoop env fuel question w = Some w.
Proof. intros H. destruct fuel; simpl; now rewrite H. Qed.

(** From counter [n] on, with [k] checks left before the maximum. *)
Lemma poll_absent (env : Env) (question : jsstring) :
  (forall t, answering env t None = None) ->
  forall (k : nat) (n d : N) (w : World),
    (N.to_nat n + k = 30)%nat ->
    timer w = Some (n, d) -> resultsFile w = None ->
    exists w',
      (forall fuel, (S k <= fuel)%nat ->
                    eventLoop env fuel question w = Some w')
      /\ timer w' = None
      /\ now w' = now w + d + retryInterval * N.of_nat k
      /\ idle w w' k (repeat retryInterval k) [msgNoResults].
Proof.
  intros Ha. induction k as [|k IH]; intros n d w Hk Ht Hr.
  - destruct (@fire_exhausted env question w n d Ht) as [w' [F [T [C I]]]];
      [unfold maxRetries; lia|exact Hr|apply Ha|].
    exists w'. split; [|split; [exact T|split; [|exact I]]].
    + intros [|fuel] Hf; [lia|]. simpl. rewrite Ht, F.
      now apply eventLoop_done.
    + rewrite C. cbn. lia.
  - destruct (@fire_absent env question w n d Ht) as [w1 [F [T [C I]]]];
      [unfold maxRetries; lia|exact Hr|apply Ha|].
    destruct (IH (n + 1) retryInterval w1) as [w' [L [T' [C' I']]]];
      [lia|exact T|apply (idle_results I)|].
    exists w'. split; [|split; [exact T'|split]].
    + intros [|fuel] Hf; [lia|]. simpl. rewrite Ht, F. apply L. lia.
    + rewrite C', C. unfold retryInterval. lia.
    + apply (idle_trans I I').
Qed.

(** C6: when the response file never appears, the polling sequence started
    by a submission ends, whatever the surroundings do otherwise: it looks
    for the file 30 times, each retry timer is set to 2000 ms, the sequence
    is over 60000 ms after its start with no callback left, it shows the
    failure notice once and nothing else, and it never modifies the
    document. *)
Theorem exhaustion_without_response (env : Env) (question : jsstring)
    (w : World) :
  resultsFile w = None ->
  (forall t, answering env t None = None) ->
  timer w = Some (0, 0) ->
  exists w',
    (forall fuel, (31 <= fuel)%nat -> eventLoop env fuel question w = Some w')
    /\ timer w' = None
    /\ now w' = now w + maxRetries * retryInterval
    /\ count isExistsCheck (trace w')
       = (count isExistsCheck (trace w) + N.to_nat maxRetries)%nat
    /\ timerDelays (trace w')
       = timerDelays (trace w) ++ repeat retryInterval (N.to_nat maxRetries)
    /\ notices (trace w') = notices (trace w) ++ [msgNoResults]
    /\ document w' = document w
    /\ count isModify (trace w') = count isModify (trace w).
Proof.
  intros Hr Ha Ht.
  destruct (@poll_absent env question Ha 30 0 0 w eq_refl Ht Hr)
    as [w' [L [T [C I]]]].
  exists w'. split; [exact L|]. split; [exact T|]. split.
  - rewrite C. unfold maxRetries, retryInterval. lia.
  - destruct I as [I1 I2 I3 I4 I5 I6 I7]. now repeat split.
Qed.

Lemma exhaustion_without_response_witness :
  exists w',
    eventLoop (reliable silent) 31 (u "Q")
      (setTimer (Some (0, 0)) (initialWorld (u "hdr"))) = Some w'
    /\ timer w' = None
    /\ now w' = 60000
    /\ notices (trace w') = [msgNoResults]
    /\ document w' = u "hdr".
Proof.
  destruct (@exhaustion_without_response (reliable silent) (u "Q")
              (setTimer (Some (0, 0)) (initialWorld (u "hdr")))
              eq_refl (fun _ => eq_refl) eq_refl)
    as [w' [L [T [C [_ [_ [S [D _]]]]]]]].
  exists w'. split; [apply L; apply le_n|]. now repeat split.
Defined.

(** Case analysis on the tests met along a run. *)
Ltac run_cases :=
  repeat match goal with
         | |- context [if ?b then _ else _] => destruct b eqn:?; cbn
         end.

(** C2, as stated, fails: a response file that does not parse is not
    replaced by the default record and nothing is merged; the document is
    left as it was. *)
Lemma malformed_response_counterexample :
  let w := setFile ResultsJson (Some (Unparseable (u "{oops")))
             (initialWorld (u "hdr")) in
  let w' := snd (checkResults (reliable silent) (u "Q") 0 w) in
  document w'
  <> merge (document w)
       (answerContent (u "Q") (JStr placeholderAnswer) noSourcesLine)
  /\ document w' = document w
  /\ count isModify (trace w') = 0%nat.
Proof. vm_compute. repeat split. discriminate. Qed.

(** C2 (amended): for every response file whose content does not parse,
    the check below the maximum does not substitute a default record and
    does not merge: the document is not modified, no notice is shown and no
    retry is scheduled; the error is caught and logged to the console only,
    and the lock release is still called. *)
Theorem malformed_response_not_merged (env : Env) (question : jsstring)
    (retryCount : N) (raw : jsstring) (w : World) :
  retryCount < maxRetries ->
  resultsFile w = Some (Unparseable raw) ->
  let w' := snd (checkResults env question retryCount w) in
  document w' = document w
  /\ count isModify (trace w') = count isModify (trace w)
  /\ notices (trace w') = notices (trace w)
  /\ timer w' = timer w
  /\ In (ConsoleError (u "Error processing results:")) (trace w')
  /\ count (isUnlockOf ResultsJson) (trace w')
     = S (count (isUnlockOf ResultsJson) (trace w)).
Proof.
  intros Hn Hr. apply N.leb_gt in Hn.
  unfold checkResults. rewrite Hn.
  unfold bind at 1. unfold existsSync. cbn [fileAt emit resultsFile].
  rewrite Hr.
  unfold processFound, tryFinally, tryCatch, bind, lock, readFileSync,
    unlock, unlink, log.
  cbn. rewrite Hr. cbn.
  run_cases; cbn; rewrite ?Hr; cbn; run_cases.
  all: repeat split; try trace_obs.
  all: rewrite ?in_app_iff; cbn; tauto.
Qed.

Lemma malformed_response_not_merged_witness :
  let w := setFile ResultsJson (Some (Unparseable (u "{oops")))
             (initialWorld (u "hdr")) in
  let w' := snd (checkResults (reliable silent) (u "Q") 0 w) in
  document w' = u "hdr" /\ notices (trace w') = [] /\ timer w' = None.
Proof.
  destruct (@malformed_response_not_merged (reliable silent) (u "Q") 0
              (u "{oops")
              (setFile ResultsJson (Some (Unparseable (u "{oops")))
                       (initialWorld (u "hdr")))
              eq_refl eq_refl)
    as [D [_ [S [T _]]]].
  exact (conj D (conj S T)).
Defined.

(** C1, as stated, fails: after a failed verification the next check is
    scheduled with the counter incremented, not unchanged. *)
Lemma failed_merge_retry_counterexample :
  let w := setFile ResultsJson (Some sampleResponse)
             (initialWorld (u "hdr")) in
  let w' := snd (checkResults (staleVault silent) (u "Q") 0 w) in
  notices (trace w') = [msgRetrying]
  /\ timer w' <> Some (0, retryInterval)
  /\ timer w' = Some (1, retryInterval).
Proof. vm_compute. repeat split. discriminate. Qed.

(** C1 (amended): for every retry count below the maximum, when the
    response file is found, read and rendered without failure and the
    re-read document does not contain the answer block, the poller shows
    the retry notice and schedules another check after the fixed delay with
    the retry counter incremented by one, as the not-found retry does. *)
Theorem failed_merge_retry_increments (env : Env) (question : jsstring)
    (retryCount : N) (data : json) (block : jsstring) (w : World) :
  retryCount < maxRetries ->
  resultsFile w = Some (Serialized data) ->
  isHeld ResultsJson w = false ->
  (forall s, In s [SiteResLock; SiteResRead; SiteVaultRead; SiteVaultModify;
                   SiteVaultReread] -> fails env s = false) ->
  renderBlock question data = Ok block ->
  includes block (store env (document w) (merge (document w) block)) = false ->
  let w' := snd (checkResults env question retryCount w) in
  timer w' = Some (retryCount + 1, retryInterval)
  /\ notices (trace w') = notices (trace w) ++ [msgRetrying]
  /\ timerDelays (trace w') = timerDelays (trace w) ++ [retryInterval].
Proof.
  intros Hn Hr Hh Hf Hb Hv. apply N.leb_gt in Hn.
  assert (F1 := Hf SiteResLock ltac:(simpl; tauto)).
  assert (F2 := Hf SiteResRead ltac:(simpl; tauto)).
  assert (F3 := Hf SiteVaultRead ltac:(simpl; tauto)).
  assert (F4 := Hf SiteVaultModify ltac:(simpl; tauto)).
  assert (F5 := Hf SiteVaultReread ltac:(simpl; tauto)).
  unfold checkResults. rewrite Hn.
  unfold bind at 1. unfold existsSync. cbn [fileAt emit resultsFile].
  rewrite Hr.
  unfold processFound, tryFinally, tryCatch, bind, lock, readFileSync,
    jsonParse, liftResult, vaultRead, vaultModify, setTimeout,
    unlock, unlink, log, ret, isHeld in *.
  repeat (cbn; rewrite ?Hr, ?Hh, ?F1, ?F2, ?F3, ?F4, ?F5, ?Hb, ?Hv).
  run_cases.
  all: repeat split; try trace_obs.
Qed.

Lemma failed_merge_retry_increments_witness :
  let w := setFile ResultsJson (Some sampleResponse)
             (initialWorld (u "hdr")) in
  let w' := snd (checkResults (staleVault silent) (u "Q") 7 w) in
  timer w' = Some (8, 2000) /\ notices (trace w') = [msgRetrying].
Proof.
  destruct (@failed_merge_retry_increments (staleVault silent) (u "Q") 7
              (JObj [(u "answer", JStr (u "Y")); (u "sources", JArr [])])
              (answerContent (u "Q") (JStr (u "Y")) noSourcesLine)
              (setFile ResultsJson (Some sampleResponse)
                       (initialWorld (u "hdr")))
              eq_refl eq_refl eq_refl (fun _ _ => eq_refl) eq_refl eq_refl)
    as [T [S _]].
  exact (conj T S).
Defined.

(** The specification's scenario: the response appears at the fifth check;
    the block is inserted right after the header and the response file is
    deleted. *)
Example response_on_fifth_check :
  let arrives := fun (t : N) (f : option filetext) =>
                   if t =? 8000 then Some sampleResponse else f in
  let w := snd (handleQuestionSubmit (reliable arrives) (u "Q")
                  (initialWorld (u "hdr --- old"))) in
  exists w',
    eventLoop (reliable arrives) 31 (u "Q") w = Some w'
    /\ document w'
       = u "hdr" ++ nl ++ nl ++ u "---" ++ nl ++ nl
           ++ u "## Q" ++ nl ++ nl ++ u "Y" ++ nl ++ nl
           ++ u "### Sources:" ++ nl ++ u "- No sources found." ++ nl ++ nl
           ++ u "---" ++ nl ++ nl ++ u "old"
    /\ resultsFile w' = None
    /\ notices (trace w') = [msgRendered]
    /\ count isExistsCheck (trace w') = 5%nat
    /\ held w' = [].
Proof. eexists. vm_compute. repeat split. Qed.

End PollFacts.

(** ** Repeated merges *)

Module MergeCompose.

Import JSFacts TrimFacts MergeFacts.

(** [includes] holds exactly of the texts that contain the pattern. *)
Lemma includes_true_split (p s : jsstring) :
  includes p s = true -> exists pre suf, s = pre ++ p ++ suf.
Proof.
  induction s as [|c s IH]; rewrite includes_unfold; intros H.
  - rewrite orb_false_r in H. apply startsWith_true in H.
    exists [], (skipn (List.length p) []). exact H.
  - apply orb_true_iff in H as [H|H].
    + apply startsWith_true in H. now exists [], (skipn (List.length p) (c :: s)).
    + destruct (IH H) as [pre [suf E]]. exists (c :: pre), suf.
      simpl. now f_equal.
Qed.

Lemma includes_sub (p l t r : jsstring) :
  includes p (l ++ t ++ r) = false -> includes p t = false.
Proof.
  intros H. destruct (includes p t) eqn:E; [|reflexivity].
  destruct (includes_true_split _ _ E) as [pre [suf ->]].
  rewrite <- H. symmetry.
  replace (l ++ (pre ++ p ++ suf) ++ r) with ((l ++ pre) ++ p ++ (suf ++ r))
    by (now rewrite <- !app_assoc).
  apply includes_app.
Qed.

(** The header found by [cut] holds no delimiter, even with the two dashes
    that follow it. *)
Lemma cut_cons (sep : jsstring) (c : N) (s : jsstring) :
  cut sep (c :: s)
  = if startsWith sep (c :: s)
    then Some ([], skipn (List.length sep) (c :: s))
    else match cut sep s with
         | Some (b, a) => Some (c :: b, a)
         | None => None
         end.
Proof. reflexivity. Qed.

Lemma cut_some_leftmost (s b a : jsstring) :
  cut delimiter s = Some (b, a) -> includes delimiter (b ++ u "--") = false.
Proof.
  revert b a; induction s as [|c s IH]; intros b a H.
  - discriminate.
  - rewrite cut_cons in H. destruct (startsWith delimiter (c :: s)) eqn:E.
    + injection H as <- <-. reflexivity.
    + destruct (cut delimiter s) as [[b' a']|] eqn:C; [|discriminate].
      injection H as <- <-.
      assert (S := cut_sound _ _ C).
      change ((c :: b') ++ u "--") with (c :: (b' ++ u "--")).
      rewrite includes_unfold.
      rewrite (IH _ _ eq_refl), orb_false_r.
      change (c :: (b' ++ u "--")) with ((c :: b') ++ u "--").
      rewrite <- (delimiter_window c b' a').
      change ((c :: b') ++ delimiter ++ a') with (c :: (b' ++ delimiter ++ a')).
      now rewrite <- S.
Qed.

Lemma header_no_delimiter (text : jsstring) :
  includes delimiter (headerOf text) = false.
Proof.
  unfold headerOf. destruct (cut delimiter text) as [[b a]|] eqn:C.
  - apply cut_some_leftmost in C.
    apply (@includes_sub delimiter [] b (u "--")). exact C.
  - now apply cut_none_includes.
Qed.

(** A line feed separates what is before it from what is after it: no
    delimiter runs across. *)
Lemma includes_break (t x : jsstring) :
  includes delimiter (t ++ 10%N :: x)
  = includes delimiter t || includes delimiter x.
Proof.
  induction t as [|c t IH].
  - simpl app. rewrite includes_unfold. reflexivity.
  - change ((c :: t) ++ 10%N :: x) with (c :: (t ++ 10%N :: x)).
    rewrite (includes_unfold delimiter (c :: t ++ 10%N :: x)).
    rewrite (includes_unfold delimiter (c :: t)).
    rewrite IH, <- orb_assoc. f_equal.
    destruct t as [|t1 [|t2 t]]; cbn;
      repeat match goal with
             | |- context [N.eqb ?a ?b] => destruct (N.eqb a b)
             end; reflexivity.
Qed.

(** *** Trimming what is already trimmed *)

Lemma trimStart_white_app (w x : jsstring) :
  forallb isWhite w = true -> trimStart (w ++ x) = trimStart x.
Proof.
  induction w as [|c w IH]; simpl; [reflexivity|].
  intros H. apply andb_true_iff in H as [Hc Hw]. rewrite Hc. now apply IH.
Qed.

Lemma forallb_rev (f : N -> bool) (l : jsstring) :
  forallb f l = true -> forallb f (rev l) = true.
Proof.
  rewrite !forallb_forall. intros H x Hx. apply H. now apply in_rev.
Qed.

Lemma trimEnd_app_white (s w : jsstring) :
  forallb isWhite w = true -> trimEnd (s ++ w) = trimEnd s.
Proof.
  intros H. unfold trimEnd. rewrite rev_app_distr.
  now rewrite trimStart_white_app by now apply forallb_rev.
Qed.

Lemma trimStart_head (s : jsstring) :
  trimStart s = [] \/ exists c r, trimStart s = c :: r /\ isWhite c = false.
Proof.
  induction s as [|c s IH]; simpl; [now left|].
  destruct (isWhite c) eqn:E; [exact IH|]. right. now exists c, s.
Qed.

Lemma trimStart_idem (s : jsstring) : trimStart (trimStart s) = trimStart s.
Proof.
  destruct (trimStart_head s) as [->|[c [r [-> H]]]]; [reflexivity|].
  simpl. now rewrite H.
Qed.

Lemma trimEnd_idem (s : jsstring) : trimEnd (trimEnd s) = trimEnd s.
Proof. unfold trimEnd. now rewrite rev_involutive, trimStart_idem. Qed.

(** A trimmed text is empty or begins with a code unit that is not white
    space. *)
Lemma trim_head (s : jsstring) :
  trim s = [] \/ exists c r, trim s = c :: r /\ isWhite c = false.
Proof.
  unfold trim. destruct (trimStart_head s) as [->|[c [r [-> H]]]].
  - now left.
  - right. destruct (trimEnd_decomp (c :: r)) as [w [E W]].
    destruct (trimEnd (c :: r)) as [|c' r'] eqn:T.
    + simpl in E. subst w. simpl in W. now rewrite H in W.
    + injection E as <- _. now exists c, r'.
Qed.

Lemma trim_white_app (w x : jsstring) :
  forallb isWhite w = true -> trim (w ++ x) = trim x.
Proof. intros H. unfold trim. now rewrite trimStart_white_app. Qed.

Lemma trim_trim_white (s w : jsstring) :
  forallb isWhite w = true -> trim (trim s ++ w) = trim s.
Proof.
  intros H. destruct (trim_head s) as [E|[c [r [E Hc]]]].
  - rewrite E. simpl app. rewrite <- (app_nil_r w).
    now rewrite trim_white_app.
  - unfold trim at 1. rewrite E. simpl app. simpl trimStart. rewrite Hc.
    change (c :: r ++ w) with ((c :: r) ++ w).
    rewrite trimEnd_app_white by exact H.
    rewrite <- E. unfold trim. apply trimEnd_idem.
Qed.

(** *** The regions of a merged text *)

Lemma merged_first_delimiter (h x : jsstring) :
  includes delimiter h = false ->
  cut delimiter (trim h ++ nl ++ nl ++ delimiter ++ x)
  = Some (trim h ++ nl ++ nl, x).
Proof.
  intros H.
  replace (trim h ++ nl ++ nl ++ delimiter ++ x)
    with ((trim h ++ nl ++ nl) ++ delimiter ++ x)
    by (now rewrite <- !app_assoc).
  apply first_delimiter.
  replace ((trim h ++ nl ++ nl) ++ u "--")
    with (trim h ++ 10%N :: (nl ++ u "--"))
    by (now rewrite <- !app_assoc).
  rewrite includes_break.
  destruct (trim_decomp h) as [l [r [E _]]].
  rewrite E in H. apply includes_sub in H. now rewrite H.
Qed.

Lemma regions_after (text block : jsstring) :
  headerOf (merge text block) = trim (headerOf text) ++ nl ++ nl
  /\ trim (headerOf (merge text block)) = trim (headerOf text)
  /\ restOf (merge text block) = nl ++ nl ++ block ++ trim (restOf text).
Proof.
  rewrite merge_regions.
  generalize (header_no_delimiter text).
  generalize (headerOf text) (trim (restOf text)). intros h r H.
  assert (C := @merged_first_delimiter h (nl ++ nl ++ block ++ r) H).
  unfold headerOf, restOf. rewrite C.
  split; [reflexivity|]. split; [|reflexivity].
  replace (trim h ++ nl ++ nl) with (trim h ++ (nl ++ nl)) by reflexivity.
  now apply trim_trim_white.
Qed.

(** After a merge the header region is the trimmed header of before
    followed by a blank line, so that its trim does not change any more,
    and the rest region is the answer block followed by the trimmed rest of
    before. *)
Theorem merge_regions_after (text block : jsstring) :
  headerOf (merge text block) = trim (headerOf text) ++ nl ++ nl
  /\ trim (headerOf (merge text block)) = trim (headerOf text)
  /\ restOf (merge text block) = nl ++ nl ++ block ++ trim (restOf text).
Proof.
  rewrite merge_regions.
  generalize (header_no_delimiter text).
  generalize (headerOf text) (trim (restOf text)). intros h r H.
  assert (C := @merged_first_delimiter h (nl ++ nl ++ block ++ r) H).
  unfold headerOf, restOf. rewrite C.
  split; [reflexivity|]. split; [|reflexivity].
  replace (trim h ++ nl ++ nl) with (trim h ++ (nl ++ nl)) by reflexivity.
  now apply trim_trim_white.
Qed.

(** Two merges in a row: the header comes first, trimmed once; the newer
    block comes right after the delimiter, before the older one; the older
    block and the old rest follow, trimmed as one text. *)
Theorem merge_twice (text b1 b2 : jsstring) :
  merge (merge text b1) b2
  = trim (headerOf text) ++ nl ++ nl ++ delimiter ++ nl ++ nl
      ++ b2 ++ trim (b1 ++ trim (restOf text)).
Proof.
  rewrite (merge_regions (merge text b1) b2).
  destruct (regions_after text b1) as [_ [H R]].
  rewrite H, R.
  replace (nl ++ nl ++ b1 ++ trim (restOf text))
    with ((nl ++ nl) ++ b1 ++ trim (restOf text)) by reflexivity.
  now rewrite trim_white_app.
Qed.

(** The chat form of a new note, without the white space around it. *)
Lemma fresh_note_regions :
  restOf getInitialContent = nl
  /\ includes delimiter (headerOf getInitialContent) = false
  /\ headerOf getInitialContent
     = nl ++ trim (headerOf getInitialContent) ++ nl ++ nl.
Proof. vm_compute. repeat split. Qed.

(** The text of a new chat note is the chat form between a line feed and a
    blank line, the delimiter and a line feed; the first answer rendered
    into it gives the chat form, the delimiter between blank lines and the
    block, with nothing after it. *)
Theorem merge_into_fresh_note :
  exists form,
    getInitialContent = nl ++ form ++ nl ++ nl ++ delimiter ++ nl
    /\ trim form = form
    /\ forall block,
         merge getInitialContent block
         = form ++ nl ++ nl ++ delimiter ++ nl ++ nl ++ block.
Proof.
  exists (trim (headerOf getInitialContent)).
  split; [vm_compute; reflexivity|]. split; [vm_compute; reflexivity|].
  intros block. rewrite merge_regions.
  destruct fresh_note_regions as [-> _].
  change (trim nl) with (@nil N). now rewrite app_nil_r.
Qed.

End MergeCompose.

(** ** What a computation leaves as it is *)

Module FrameFacts.

Local Open Scope plugin_scope.

Section Keeps.

Variable R : frame.

Lemma keeps_ret {A} (a : A) : keeps R (ret a).
Proof. intros w. apply rel_refl. Qed.

Lemma keeps_throw {A} : keeps R (@throw A).
Proof. intros w. apply rel_refl. Qed.

Lemma keeps_liftResult {A} (r : result A) : keeps R (liftResult r).
Proof. intros w. apply rel_refl. Qed.

Lemma keeps_jsonParse (t : filetext) : keeps R (jsonParse t).
Proof. destruct t; [apply keeps_throw|apply keeps_ret]. Qed.

Lemma keeps_setQuestion (q : jsstring) (v : json) : keeps R (setQuestion q v).
Proof. destruct v; first [apply keeps_throw | apply keeps_ret]. Qed.

Lemma keeps_bind {A B} (m : M A) (k : A -> M B) :
  keeps R m -> (forall a, keeps R (k a)) -> keeps R (bind m k).
Proof.
  intros Hm Hk w. unfold bind. specialize (Hm w).
  destruct (m w) as [[a|] w1]; simpl in *; [|exact Hm].
  eapply rel_trans; [exact Hm|apply Hk].
Qed.

Lemma keeps_tryCatch {A} (body handler : M A) :
  keeps R body -> keeps R handler -> keeps R (tryCatch body handler).
Proof.
  intros Hb Hh w. unfold tryCatch. specialize (Hb w).
  destruct (body w) as [[a|] w1]; simpl in *; [exact Hb|].
  eapply rel_trans; [exact Hb|apply Hh].
Qed.

Lemma keeps_tryFinally {A} (body : M A) (fin : M unit) :
  keeps R body -> keeps R fin -> keeps R (tryFinally body fin).
Proof.
  intros Hb Hf w. unfold tryFinally. specialize (Hb w).
  destruct (body w) as [r w1]. specialize (Hf w1). simpl in *.
  destruct (fin w1) as [[[]|] w2]; simpl in *;
    (eapply rel_trans; [exact Hb|exact Hf]).
Qed.

End Keeps.

(** Walks through a computation and leaves its primitives. *)
Ltac keeps_walk :=
  repeat first
    [ apply keeps_bind; [|intro]
    | apply keeps_tryCatch
    | apply keeps_tryFinally
    | apply keeps_ret
    | apply keeps_throw
    | apply keeps_liftResult
    | apply keeps_jsonParse
    | apply keeps_setQuestion
    | match goal with
      | |- keeps _ (if ?b then _ else _) => destruct b
      end ].

(** The cases of one primitive. *)
Ltac prim_cases :=
  unfold keeps, submitFrame, quietFrame, checkFrame, timerFrame; cbn [rel];
  intros ?w;
  unfold existsSync, writeFileSync, readFileSync, lock, unlock, unlink,
    vaultRead, vaultModify, setTimeout, log;
  repeat match goal with
         | |- context [if ?b then _ else _] => destruct b
         | |- context [match fileAt ?p ?w with _ => _ end] =>
             destruct (fileAt p w)
         end;
  cbn -[fpath_eqb].

Lemma isHeld_other_filter (p q : fpath) (h : list fpath) :
  fpath_eqb p q = false ->
  existsb (fpath_eqb p) (filter (fun x => negb (fpath_eqb q x)) h)
  = existsb (fpath_eqb p) h.
Proof.
  intros H. induction h as [|x h IH]; simpl; [reflexivity|].
  destruct q, x; simpl; rewrite ?IH; try reflexivity;
    destruct p; simpl in *; congruence.
Qed.

Ltac frame_prim :=
  prim_cases;
  unfold quietRel, submitRel, checkRel, isHeld; cbn -[fpath_eqb];
  rewrite ?isHeld_other_filter by reflexivity;
  cbn; intros; repeat split; reflexivity.

(** The first check of a polling sequence when there is no response file:
    one existence test, a console line and a timer. *)
Lemma keeps_first_check (env : Env) (question : jsstring) :
  keeps quietFrame (renderResultsWhenAvailable env question).
Proof.
  intros w Hr. unfold renderResultsWhenAvailable, checkResults.
  replace (maxRetries <=? 0)%N with false by reflexivity.
  unfold bind, existsSync. cbn [fileAt]. rewrite Hr. cbn.
  unfold submitRel. cbn. now repeat split.
Qed.

(** When no response file is on disk, a question submission, whatever
    fails, leaves the response file absent, does not touch its lock, does
    not modify the document and takes no time: the first check of the
    polling sequence, made inside the submission, only looks for the file
    and sets the next timer. *)
Theorem submit_leaves_response (env : Env) (question : jsstring) (w : World) :
  resultsFile w = None ->
  let w' := snd (handleQuestionSubmit env question w) in
  resultsFile w' = None /\ document w' = document w
  /\ now w' = now w /\ isHeld ResultsJson w' = isHeld ResultsJson w.
Proof.
  intros Hr.
  assert (K : keeps quietFrame (handleQuestionSubmit env question)).
  { unfold handleQuestionSubmit, readExisting.
    generalize (keeps_first_check env question).
    generalize (renderResultsWhenAvailable env question). intros r F.
    keeps_walk; first [exact F | frame_prim]. }
  destruct (K w Hr) as [A [B [C D]]].
  cbv zeta. rewrite A. now repeat split.
Qed.

Lemma submit_leaves_response_witness :
  let w := setFile QuestionJson (Some (Unparseable (u "{")))
             (initialWorld (u "hdr")) in
  let w' := snd (handleQuestionSubmit (failingAt SiteUpdate) (u "Q") w) in
  resultsFile w' = None /\ document w' = u "hdr" /\ now w' = 0%N.
Proof.
  destruct (@submit_leaves_response (failingAt SiteUpdate) (u "Q")
              (setFile QuestionJson (Some (Unparseable (u "{")))
                       (initialWorld (u "hdr")))
              eq_refl) as [A [B [C _]]].
  exact (conj A (conj B C)).
Defined.

Lemma check_frame (env : Env) (question : jsstring) (retryCount : N)
    (w : World) :
  checkRel w (snd (checkResults env question retryCount w)).
Proof.
  assert (K : keeps checkFrame (checkResults env question retryCount)).
  { unfold checkResults, processFound. keeps_walk; frame_prim. }
  exact (K w).
Qed.

(** A check of the poller, whatever its counter and whatever fails, touches
    neither the request file nor its lock and takes no time. *)
Theorem check_leaves_request (env : Env) (question : jsstring)
    (retryCount : N) (w : World) :
  let w' := snd (checkResults env question retryCount w) in
  questionFile w' = questionFile w /\ now w' = now w
  /\ isHeld QuestionJson w' = isHeld QuestionJson w.
Proof.
  assert (K : keeps checkFrame (checkResults env question retryCount)).
  { unfold checkResults, processFound. keeps_walk; frame_prim. }
  exact (K w).
Qed.

Ltac timer_prim :=
  prim_cases; unfold timerRel; cbn; auto.

(** A check either leaves the pending timer as it is or sets it for the
    next counter after the fixed delay. *)
Lemma check_timer (env : Env) (question : jsstring) (n : N) (w : World) :
  timerRel n w (snd (checkResults env question n w)).
Proof.
  assert (K : keeps (timerFrame n) (checkResults env question n)).
  { unfold checkResults, processFound. keeps_walk; timer_prim. }
  exact (K w).
Qed.

Lemma check_exhausted_timer (env : Env) (question : jsstring) (n : N)
    (w : World) :
  (maxRetries <= n)%N -> timer (snd (checkResults env question n w)) = timer w.
Proof.
  intros H. apply N.leb_le in H. unfold checkResults. now rewrite H.
Qed.

(** Whatever the surroundings do (I/O failures, a vault that never takes the
    modification, an answering process that keeps rewriting the response
    file), a polling sequence at counter [n] is over after at most
    [maxRetries - n + 1] callbacks, no later than
    [retryInterval * (maxRetries - n)] after its next check. *)
Theorem polling_bounded (env : Env) (question : jsstring) (fuel : nat) :
  forall (n d : N) (w : World),
    timer w = Some (n, d) ->
    (N.to_nat (maxRetries - n) < fuel)%nat ->
    exists w',
      eventLoop env fuel question w = Some w'
      /\ timer w' = None
      /\ (now w' <= now w + d + retryInterval * (maxRetries - n))%N.
Proof.
  induction fuel as [|fuel IH]; intros n d w Ht Hf; [lia|].
  cbn [eventLoop]. rewrite Ht. unfold fire. rewrite Ht.
  set (w2 := setFile ResultsJson _ _).
  assert (T2 : timer w2 = None) by reflexivity.
  assert (N2 : now w2 = (now w + d)%N) by reflexivity.
  destruct (check_frame env question n w2) as [_ [N3 _]].
  destruct (check_timer env question n w2) as [T3|T3];
    [rewrite T2 in T3|].
  - exists (snd (checkResults env question n w2)).
    split; [now apply PollFacts.eventLoop_done|]. split; [exact T3|].
    rewrite N3, N2. unfold maxRetries, retryInterval. lia.
  - destruct (N.leb_spec maxRetries n) as [L|L].
    + rewrite (check_exhausted_timer env question w2 L), T2 in T3.
      discriminate.
    + destruct (IH (n + 1)%N retryInterval _ T3) as [w' [E [T C]]].
      { unfold maxRetries in *. lia. }
      exists w'. split; [exact E|]. split; [exact T|].
      rewrite N3, N2 in C. unfold maxRetries, retryInterval in *. lia.
Qed.

Lemma polling_bounded_witness :
  let env := staleVault (fun _ _ => Some sampleResponse) in
  exists w',
    eventLoop env 31 (u "Q")
      (setTimer (Some (0%N, 0%N)) (initialWorld (u "hdr"))) = Some w'
    /\ timer w' = None
    /\ (now w' <= 60000)%N.
Proof.
  exact (@polling_bounded (staleVault (fun _ _ => Some sampleResponse))
           (u "Q") 31 0%N 0%N
           (setTimer (Some (0%N, 0%N)) (initialWorld (u "hdr")))
           eq_refl (le_n 31)).
Defined.

Lemma not_held_after_filter (p : fpath) (h : list fpath) :
  existsb (fpath_eqb p) (filter (fun x => negb (fpath_eqb p x)) h) = false.
Proof.
  induction h as [|x h IH]; simpl; [reflexivity|].
  destruct (fpath_eqb p x) eqn:E; simpl; [exact IH|]. now rewrite E, IH.
Qed.

(** No lock is left behind unless [unlock] itself fails: after a question
    submission the request file is not locked, and after the handling of a
    found response the response file is not locked, whatever else fails
    and whatever the locks were before. *)
Theorem no_lock_left (env : Env) (question : jsstring) (retryCount : N)
    (w : World) :
  (fails env SiteUnlock = false ->
   isHeld QuestionJson (snd (handleQuestionSubmit env question w)) = false)
  /\ (fails env SiteResUnlock = false ->
      isHeld ResultsJson (snd (processFound env question retryCount w))
      = false).
Proof.
  split; intros F.
  - unfold handleQuestionSubmit. rewrite LockFacts.snd_tryFinally.
    match goal with |- context [unlock _ _ _ ?x] => generalize x end.
    intros w1. unfold unlock. rewrite F. cbn [orb].
    destruct (isHeld QuestionJson w1) eqn:H; cbn -[fpath_eqb].
    + unfold isHeld. cbn -[fpath_eqb]. apply not_held_after_filter.
    + exact H.
  - unfold processFound. rewrite LockFacts.snd_tryFinally.
    match goal with |- context [bind _ _ ?x] => generalize x end.
    intros w1. unfold bind, unlock, unlink. rewrite F. cbn [orb].
    destruct (isHeld ResultsJson w1) eqn:H; cbn -[fpath_eqb].
    + match goal with
      | |- context [if ?b then _ else _] => destruct b
      end; unfold isHeld; cbn -[fpath_eqb]; apply not_held_after_filter.
    + exact H.
Qed.

Lemma no_lock_left_witness :
  isHeld QuestionJson
    (snd (handleQuestionSubmit (failingAt SiteLock) (u "Q")
            (initialWorld []))) = false
  /\ isHeld ResultsJson
       (snd (processFound (failingAt SiteResRead) (u "Q") 0
               (setFile ResultsJson (Some sampleResponse)
                        (initialWorld [])))) = false.
Proof.
  split.
  - exact (proj1 (@no_lock_left (failingAt SiteLock) (u "Q") 0%N
                    (initialWorld [])) eq_refl).
  - exact (proj2 (@no_lock_left (failingAt SiteResRead) (u "Q") 0%N
                    (setFile ResultsJson (Some sampleResponse)
                             (initialWorld []))) eq_refl).
Defined.

End FrameFacts.

(** ** Question submission (C5) *)

Module SubmitFacts.

Import TraceFacts.

Local Open Scope plugin_scope.

#[local] Arguments u : simpl never.
#[local] Arguments notices : simpl never.

Lemma str_eqb_refl (s : jsstring) : str_eqb s s = true.
Proof. induction s as [|c s IH]; simpl; [reflexivity|]. now rewrite N.eqb_refl. Qed.

Lemma lookup_assign (key : jsstring) (v : json)
    (fields : list (jsstring * json)) :
  lookup key (assign key v fields) = Some v.
Proof.
  induction fields as [|[k w] fields IH]; simpl.
  - now rewrite str_eqb_refl.
  - destruct (str_eqb k key) eqn:E; simpl; now rewrite E.
Qed.

(** What the first check of a polling sequence does, as far as a submission
    is concerned: it looks for the response file once, shows no notice of a
    failed submission, and touches neither the request file nor its lock. *)
Lemma first_check_facts (env : Env) (question : jsstring) (w : World) :
  let w' := snd (checkResults env question 0 w) in
  questionFile w' = questionFile w
  /\ isHeld QuestionJson w' = isHeld QuestionJson w
  /\ count isFailureNotice (trace w') = count isFailureNotice (trace w)
  /\ count isExistsCheck (trace w') = S (count isExistsCheck (trace w)).
Proof.
  cbv zeta.
  destruct (FrameFacts.check_frame env question 0 w) as [A [_ B]].
  split; [exact A|]. split; [exact B|]. split.
  - destruct (LockFacts.check_no_failure_notice env question 0 w)
      as [l [E F]].
    rewrite E, count_app, (count_none _ _ F). lia.
  - unfold checkResults.
    replace (maxRetries <=? 0)%N with false by reflexivity.
    unfold bind at 1. unfold existsSync. cbn [fst snd].
    destruct (fileAt ResultsJson w).
    + match goal with
      | |- context [processFound ?e ?q ?n ?w1] =>
          destruct (LockFacts.found_no_exists_check e q n w1) as [l [E F]]
      end.
      rewrite E, count_app, (count_none _ _ F). cbn [trace emit].
      rewrite count_app. cbn. lia.
    + unfold bind, log, setTimeout. cbn [fst snd trace emit setTimer].
      rewrite !count_app. cbn. lia.
Qed.

(** Brings in the facts of the first check made inside a submission. *)
Ltac first_check :=
  match goal with
  | |- context [snd (checkResults ?e ?q 0%N ?w0)] =>
      let A := fresh "A" in
      let B := fresh "B" in
      let C := fresh "C" in
      let D := fresh "D" in
      let w1 := fresh "w" in
      destruct (first_check_facts e q w0) as [A [B [C D]]];
      set (w1 := snd (checkResults e q 0%N w0)) in *; clearbody w1;
      unfold isHeld in B; cbn in A, B;
      cbn [trace emit] in C, D; rewrite ?count_app in C, D; cbn in C, D
  end.

(** Counts the events of a trace that ends with known events. *)
Ltac counts :=
  unfold count in *; rewrite ?filter_app, ?length_app;
  repeat match goal with
         | |- context [List.length (filter ?f (?e :: nil))] =>
             let v := eval vm_compute in (List.length (filter f (e :: nil))) in
             change (List.length (filter f (e :: nil))) with v
         end;
  lia.

(** Ends a run of a submission in which the first check was made. *)
Ltac after_first_check :=
  first_check;
  repeat match goal with
         | H : existsb _ _ = _ |- _ => rewrite H
         | H : questionFile _ = _ |- _ => rewrite H
         | _ => progress cbn
         end;
  rewrite ?str_eqb_refl, ?lookup_assign;
  repeat split; counts.

(** From such a prior state, when no I/O call fails and the lock is free,
    the request file read back holds the submitted question, the notice of
    a failed submission is not shown and the polling is started: the
    response file is looked for once. *)
Lemma submit_then_read (a : N -> option filetext -> option filetext)
    (question : jsstring) (w : World) :
  copes (questionFile w) -> isHeld QuestionJson w = false ->
  let w' := snd (handleQuestionSubmit (reliable a) question w) in
  readQuestion w' = Some (JStr question)
  /\ count isFailureNotice (trace w') = count isFailureNotice (trace w)
  /\ count isExistsCheck (trace w') = S (count isExistsCheck (trace w)).
Proof.
  intros Hc Hh.
  unfold handleQuestionSubmit, tryFinally, tryCatch, bind, existsSync,
    writeFileSync, lock, readExisting, tryCatch, bind, readFileSync, unlock,
    renderResultsWhenAvailable, log, ret, isHeld in *.
  unfold jsonParse, setQuestion, throw, ret, readQuestion.
  destruct (questionFile w) as [[raw|v]|] eqn:Q;
    repeat (cbn -[checkResults]; rewrite ?Q, ?Hh).
  - destruct raw; repeat (cbn -[checkResults]; rewrite ?str_eqb_refl);
      after_first_check.
  - destruct v; try contradiction.
    repeat (cbn -[checkResults]; rewrite ?lookup_assign).
    after_first_check.
  - after_first_check.
Qed.

(** C5 fails on a request file that holds the JSON text [null] (or any
    JSON value that is not an object): the text parses, so the default
    record is not used; the assignment to [existingData.question] throws;
    the outer handler shows the failure notice and the file is left as it
    was, without the question.  Over an array the assignment goes through
    but is not serialized: the file is rewritten without the question and
    no failure is reported. *)
Theorem submit_over_non_object :
  (let w := setFile QuestionJson (Some (Serialized JNull)) (initialWorld []) in
   let w' := snd (handleQuestionSubmit (reliable silent) (u "What is X?") w) in
   questionFile w' = Some (Serialized JNull)
   /\ readQuestion w' = None
   /\ notices (trace w') = [msgQuestionFailed]
   /\ timer w' = None)
  /\ (let w := setFile QuestionJson (Some (Serialized (JArr [])))
                 (initialWorld []) in
      let w' := snd (handleQuestionSubmit (reliable silent) (u "What is X?") w) in
      questionFile w' = Some (Serialized (JArr []))
      /\ readQuestion w' = None
      /\ notices (trace w') = []).
Proof. vm_compute. now repeat split. Qed.

(** The specification's scenario: no request file, then a submission. *)
Example submit_creates_request :
  questionFile (snd (handleQuestionSubmit (reliable silent) (u "What is X?")
                       (initialWorld [])))
  = Some (Serialized (JObj [(u "question", JStr (u "What is X?"))])).
Proof. reflexivity. Qed.

End SubmitFacts.

(** ** The found response: success and failure paths *)

Module FoundFacts.

Import TraceFacts.

Local Open Scope plugin_scope.
Local Open Scope N_scope.

#[local] Arguments u : simpl never.
#[local] Arguments digits : simpl never.
#[local] Arguments count : simpl never.
#[local] Arguments notices : simpl never.
#[local] Arguments timerDelays : simpl never.
#[local] Arguments merge : simpl never.

Ltac unfold_check :=
  unfold checkResults, processFound, tryFinally, tryCatch, bind, existsSync,
    lock, readFileSync, jsonParse, liftResult, vaultRead, vaultModify,
    setTimeout, unlock, unlink, log, ret, throw, isHeld in *.

Lemma found_renders (env : Env) (question : jsstring)
    (retryCount : N) (data : json) (block : jsstring) (w : World) :
  retryCount < maxRetries ->
  resultsFile w = Some (Serialized data) ->
  isHeld ResultsJson w = false ->
  (forall s, fails env s = false) ->
  (forall old new, store env old new = new) ->
  renderBlock question data = Ok block ->
  let r := checkResults env question retryCount w in
  fst r = Ok tt
  /\ document (snd r) = merge (document w) block
  /\ notices (trace (snd r)) = notices (trace w) ++ [msgRendered]
  /\ resultsFile (snd r) = None
  /\ isHeld ResultsJson (snd r) = false
  /\ timer (snd r) = timer w
  /\ count isExistsCheck (trace (snd r))
     = S (count isExistsCheck (trace w))
  /\ count isModify (trace (snd r)) = S (count isModify (trace w)).
Proof.
  intros Hn Hr Hh Hf Hs Hb. apply N.leb_gt in Hn.
  unfold_check. rewrite Hn.
  repeat (cbn; rewrite ?Hr, ?Hh, ?Hf, ?Hb, ?Hs,
            ?MergeFacts.merge_includes_block).
  repeat split; try PollFacts.trace_obs.
  exact (FrameFacts.not_held_after_filter ResultsJson (held w)).
Qed.


(** With a vault that stores what it is given and no I/O failure, a check
    below the maximum that finds a response it can render merges the block
    into the document, passes the verification, shows the success notice,
    sets no timer, releases the lock and deletes the response file. *)
Theorem check_found_renders (env : Env) (question : jsstring)
    (retryCount : N) (data : json) (block : jsstring) (w : World) :
  retryCount < maxRetries ->
  resultsFile w = Some (Serialized data) ->
  isHeld ResultsJson w = false ->
  (forall s, fails env s = false) ->
  (forall old new, store env old new = new) ->
  renderBlock question data = Ok block ->
  let r := checkResults env question retryCount w in
  fst r = Ok tt
  /\ document (snd r) = merge (document w) block
  /\ notices (trace (snd r)) = notices (trace w) ++ [msgRendered]
  /\ resultsFile (snd r) = None
  /\ isHeld ResultsJson (snd r) = false
  /\ timer (snd r) = timer w
  /\ count isExistsCheck (trace (snd r))
     = S (count isExistsCheck (trace w))
  /\ count isModify (trace (snd r)) = S (count isModify (trace w)).
Proof.
  intros Hn Hr Hh Hf Hs Hb. apply N.leb_gt in Hn.
  unfold_check. rewrite Hn.
  repeat (cbn; rewrite ?Hr, ?Hh, ?Hf, ?Hb, ?Hs,
            ?MergeFacts.merge_includes_block).
  repeat split; try PollFacts.trace_obs.
  exact (FrameFacts.not_held_after_filter ResultsJson (held w)).
Qed.

Lemma check_found_renders_witness :
  let w := setFile ResultsJson (Some sampleResponse)
             (initialWorld (u "hdr --- old")) in
  let r := checkResults (reliable silent) (u "Q") 3 w in
  fst r = Ok tt
  /\ document (snd r)
     = merge (u "hdr --- old")
         (answerContent (u "Q") (JStr (u "Y")) noSourcesLine)
  /\ notices (trace (snd r)) = [msgRendered]
  /\ resultsFile (snd r) = None.
Proof.
  destruct (@check_found_renders (reliable silent) (u "Q") 3
              (JObj [(u "answer", JStr (u "Y")); (u "sources", JArr [])])
              (answerContent (u "Q") (JStr (u "Y")) noSourcesLine)
              (setFile ResultsJson (Some sampleResponse)
                       (initialWorld (u "hdr --- old")))
              eq_refl eq_refl eq_refl (fun _ => eq_refl)
              (fun _ _ => eq_refl) eq_refl)
    as [A [B [C [D _]]]].
  exact (conj A (conj B (conj C D))).
Defined.

(** When [lock] is rejected on a found response file (nothing held), the
    [unlock] of the [finally] block is rejected too, so the deletion after
    it is skipped: the check ends as a rejected promise, the response file
    stays on disk, and nothing is merged, shown or scheduled: the polling
    sequence stops there without a word. *)
Theorem lock_failure_stops_polling (env : Env) (question : jsstring)
    (retryCount : N) (t : filetext) (w : World) :
  retryCount < maxRetries ->
  resultsFile w = Some t ->
  isHeld ResultsJson w = false ->
  fails env SiteResLock = true ->
  let r := checkResults env question retryCount w in
  fst r = Thrown
  /\ resultsFile (snd r) = Some t
  /\ document (snd r) = document w
  /\ notices (trace (snd r)) = notices (trace w)
  /\ timer (snd r) = timer w
  /\ held (snd r) = held w
  /\ count (fun e => match e with UnlinkCall _ => true | _ => false end)
           (trace (snd r))
     = count (fun e => match e with UnlinkCall _ => true | _ => false end)
             (trace w).
Proof.
  intros Hn Hr Hh Hf. apply N.leb_gt in Hn.
  unfold_check. rewrite Hn.
  repeat (cbn; rewrite ?Hr, ?Hh, ?Hf).
  rewrite orb_true_r. cbn.
  repeat split; try PollFacts.trace_obs. exact Hr.
Qed.

Lemma lock_failure_stops_polling_witness :
  let w := setFile ResultsJson (Some sampleResponse)
             (initialWorld (u "hdr")) in
  let r := checkResults (failingAt SiteResLock) (u "Q") 0 w in
  fst r = Thrown /\ resultsFile (snd r) = Some sampleResponse
  /\ timer (snd r) = None /\ notices (trace (snd r)) = [].
Proof.
  destruct (@lock_failure_stops_polling (failingAt SiteResLock) (u "Q") 0
              sampleResponse
              (setFile ResultsJson (Some sampleResponse)
                       (initialWorld (u "hdr")))
              eq_refl eq_refl eq_refl eq_refl)
    as [A [B [_ [C [D _]]]]].
  exact (conj A (conj B (conj D C))).
Defined.

(** A response that parses but cannot be rendered (the rendering throws) is
    dropped like one that does not parse: the error is logged to the
    console, nothing is merged, no notice is shown, no retry is scheduled,
    and, the lock being free and nothing else failing, the file is
    deleted. *)
Theorem unrenderable_response_dropped (env : Env) (question : jsstring)
    (retryCount : N) (data : json) (w : World) :
  retryCount < maxRetries ->
  resultsFile w = Some (Serialized data) ->
  renderBlock question data = Thrown ->
  let w' := snd (checkResults env question retryCount w) in
  document w' = document w
  /\ count isModify (trace w') = count isModify (trace w)
  /\ notices (trace w') = notices (trace w)
  /\ timer w' = timer w
  /\ In (ConsoleError (u "Error processing results:")) (trace w')
  /\ (isHeld ResultsJson w = false -> (forall s, fails env s = false) ->
      resultsFile w' = None).
Proof.
  intros Hn Hr Hb. apply N.leb_gt in Hn.
  unfold_check. rewrite Hn.
  repeat (cbn; rewrite ?Hr, ?Hb).
  PollFacts.run_cases; repeat (cbn; rewrite ?Hr, ?Hb); PollFacts.run_cases.
  all: repeat split; try PollFacts.trace_obs.
  all: try (rewrite ?in_app_iff; cbn; tauto).
  all: intros Hh Hf; unfold isHeld in Hh; cbn in Hh.
  all: rewrite ?Hf, ?Hh, ?Hr in *; cbn in *.
  all: try discriminate; try reflexivity.
Qed.

Lemma unrenderable_response_dropped_witness :
  let w := setFile ResultsJson
             (Some (Serialized (JObj [(u "sources", JStr (u "notes/a.md"))])))
             (initialWorld (u "hdr")) in
  let w' := snd (checkResults (reliable silent) (u "Q") 0 w) in
  document w' = u "hdr" /\ notices (trace w') = [] /\ timer w' = None
  /\ resultsFile w' = None.
Proof.
  destruct (@unrenderable_response_dropped (reliable silent) (u "Q") 0
              (JObj [(u "sources", JStr (u "notes/a.md"))])
              (setFile ResultsJson
                 (Some (Serialized
                          (JObj [(u "sources", JStr (u "notes/a.md"))])))
                 (initialWorld (u "hdr")))
              eq_refl eq_refl eq_refl)
    as [A [_ [B [C [_ D]]]]].
  exact (conj A (conj B (conj C (D eq_refl (fun _ => eq_refl))))).
Defined.

Lemma mapSources_non_string (items : list json) (item : json) :
  In item items -> (forall s, item <> JStr s) -> mapSources items = Thrown.
Proof.
  intros Hi Hn. induction items as [|x items IH]; [contradiction|].
  destruct Hi as [->|Hi].
  - destruct item; try reflexivity. now elim (Hn s).
  - simpl. destruct x; try reflexivity. now rewrite (IH Hi).
Qed.

(** The rendering throws when the [sources] of the response are a
    non-empty string (it has a positive [length] and no [map]) or an array
    with an element that is not a string ([path.extname] rejects it),
    whatever the other fields are. *)
Theorem render_throws_on_bad_sources (question : jsstring)
    (fields : list (jsstring * json)) (src : json) :
  lookup (u "sources") fields = Some src ->
  (exists s, src = JStr s /\ s <> [])
  \/ (exists items item,
        src = JArr items /\ In item items /\ forall s, item <> JStr s) ->
  renderBlock question (JObj fields) = Thrown.
Proof.
  intros Hl Hs. unfold renderBlock, getProp. rewrite Hl. cbv zeta.
  destruct Hs as [[s [-> Hs]]|[items [item [-> [Hi Hn]]]]].
  - destruct s as [|c s]; [congruence|].
    change (orDefault (Some (JStr (c :: s))) (JArr [])) with (JStr (c :: s)).
    unfold sourcesText, hasSources, lengthOf, isPositive.
    replace (0 <? Z.of_nat (List.length (c :: s)))%Z with true
      by (symmetry; apply Z.ltb_lt; cbn [List.length]; lia).
    reflexivity.
  - change (orDefault (Some (JArr items)) (JArr [])) with (JArr items).
    unfold sourcesText. rewrite RenderFacts.hasSources_array.
    destruct items as [|x items]; [contradiction|].
    cbn [List.length Nat.eqb negb].
    now rewrite (mapSources_non_string _ Hi Hn).
Qed.

Lemma render_throws_on_bad_sources_witness :
  renderBlock (u "Q") (JObj [(u "answer", JStr (u "Y"));
                             (u "sources", JArr [JStr (u "a.md"); JNum 3])])
  = Thrown.
Proof.
  refine (@render_throws_on_bad_sources (u "Q")
            [(u "answer", JStr (u "Y"));
             (u "sources", JArr [JStr (u "a.md"); JNum 3])]
            (JArr [JStr (u "a.md"); JNum 3]) eq_refl _).
  right. exists [JStr (u "a.md"); JNum 3], (JNum 3).
  split; [reflexivity|]. split; [simpl; tauto|]. intros s. discriminate.
Defined.

(** *** The response arrives during the polling *)

Lemma fire_absent_held (env : Env) (question : jsstring) (w : World)
    (n d : N) :
  timer w = Some (n, d) -> n < maxRetries -> resultsFile w = None ->
  answering env (now w + d) None = None ->
  exists w',
    fire env question w = Some w'
    /\ timer w' = Some (n + 1, retryInterval)
    /\ now w' = now w + d
    /\ idle w w' 1 [retryInterval] []
    /\ held w' = held w.
Proof.
  intros Ht Hn Hr Ha. unfold fire. rewrite Ht.
  unfold checkResults.
  apply N.leb_gt in Hn. rewrite Hn.
  eexists. split; [reflexivity|].
  unfold bind, existsSync. cbn [fileAt setFile setNow setTimer resultsFile now].
  rewrite Hr, Ha. cbn.
  repeat split; cbn; PollFacts.trace_obs.
Qed.

(** [k] checks in a row that do not find the response file. *)
Lemma poll_waits (env : Env) (question : jsstring) (k : nat) :
  forall (n d : N) (w : World),
    timer w = Some (n, d) -> resultsFile w = None ->
    (N.to_nat n + k <= 30)%nat ->
    (forall j, (j < k)%nat ->
       answering env (now w + d + retryInterval * N.of_nat j) None = None) ->
    exists w1 d1,
      (forall fuel,
         eventLoop env (k + fuel) question w = eventLoop env fuel question w1)
      /\ timer w1 = Some (n + N.of_nat k, d1)
      /\ now w1 + d1 = now w + d + retryInterval * N.of_nat k
      /\ idle w w1 k (repeat retryInterval k) []
      /\ held w1 = held w.
Proof.
  induction k as [|k IH]; intros n d w Ht Hr Hk Ha.
  - exists w, d. split; [reflexivity|]. split; [rewrite Ht; f_equal; f_equal; lia|].
    split; [lia|]. split; [|reflexivity].
    constructor; rewrite ?app_nil_r; try reflexivity; try exact Hr; lia.
  - destruct (@fire_absent_held env question w n d Ht) as [w' [F [T [C [I H]]]]];
      [unfold maxRetries; lia|exact Hr| |].
    { specialize (Ha 0%nat ltac:(lia)).
      replace (now w + d + retryInterval * N.of_nat 0) with (now w + d) in Ha
        by lia.
      exact Ha. }
    destruct (IH (n + 1) retryInterval w' T (idle_results I))
      as [w1 [d1 [L [T1 [C1 [I1 H1]]]]]]; [lia| |].
    { intros j Hj. specialize (Ha (S j) ltac:(lia)).
      rewrite C.
      replace (now w + d + retryInterval + retryInterval * N.of_nat j)
        with (now w + d + retryInterval * N.of_nat (S j)) by lia.
      exact Ha. }
    exists w1, d1. split; [|split; [|split; [|split]]].
    + intros fuel. cbn [Nat.add eventLoop]. rewrite Ht, F. apply L.
    + rewrite T1. f_equal. f_equal. lia.
    + rewrite C1, C. lia.
    + apply (PollFacts.idle_trans I I1).
    + congruence.
Qed.

(** The response file appears between the checks: if the answering process
    leaves the response file absent at the first [k] checks ([k] below the
    maximum) and has written a response that can be rendered by the next
    one, then, with a vault that stores what it is given and no I/O
    failure, the polling sequence ends at that check, [retryInterval * k]
    after its start: the block is merged into the document, the success
    notice is the only notice, the response file is deleted and no timer is
    left. *)
Theorem response_rendered_when_it_arrives (env : Env) (question : jsstring)
    (k : nat) (data : json) (block : jsstring) (w : World) :
  (k < 30)%nat ->
  timer w = Some (0, 0) -> resultsFile w = None ->
  isHeld ResultsJson w = false ->
  (forall s, fails env s = false) ->
  (forall old new, store env old new = new) ->
  (forall j, (j < k)%nat ->
     answering env (now w + retryInterval * N.of_nat j) None = None) ->
  answering env (now w + retryInterval * N.of_nat k) None
  = Some (Serialized data) ->
  renderBlock question data = Ok block ->
  exists w',
    (forall fuel, (k < fuel)%nat -> eventLoop env fuel question w = Some w')
    /\ timer w' = None
    /\ now w' = now w + retryInterval * N.of_nat k
    /\ document w' = merge (document w) block
    /\ notices (trace w') = notices (trace w) ++ [msgRendered]
    /\ resultsFile w' = None
    /\ count isExistsCheck (trace w')
       = (count isExistsCheck (trace w) + S k)%nat.
Proof.
  intros Hk Ht Hr Hh Hf Hs Ha Hd Hb.
  destruct (@poll_waits env question k 0 0 w Ht Hr) as
    [w1 [d1 [L [T1 [C1 [I1 H1]]]]]]; [lia| |].
  { intros j Hj. rewrite N.add_0_r. now apply Ha. }
  destruct I1 as [Id Iq Ir In Im Ic It].
  set (w2 := setFile ResultsJson (answering env (now w1 + d1) (resultsFile w1))
               (setNow (now w1 + d1) (setTimer None w1))).
  assert (R2 : resultsFile w2 = Some (Serialized data)).
  { subst w2. cbn. rewrite Ir, C1, N.add_0_r. exact Hd. }
  assert (H2 : isHeld ResultsJson w2 = false).
  { subst w2. unfold isHeld in *. cbn. now rewrite H1. }
  destruct (@found_renders env question (0 + N.of_nat k) data block w2)
    as [_ [D [Sn [R [_ [T [E _]]]]]]]; try assumption.
  { unfold maxRetries. lia. }
  exists (snd (checkResults env question (0 + N.of_nat k) w2)).
  split; [|split; [|split; [|split; [|split; [|split]]]]].
  - intros fuel Hfu.
    replace fuel with (k + S (fuel - S k))%nat by lia.
    rewrite L. cbn [eventLoop]. rewrite T1. unfold fire. rewrite T1.
    fold w2. apply PollFacts.eventLoop_done. rewrite T. reflexivity.
  - rewrite T. reflexivity.
  - destruct (FrameFacts.check_frame env question (0 + N.of_nat k) w2)
      as [_ [N3 _]].
    rewrite N3. subst w2. cbn [now setFile setNow setTimer]. rewrite C1.
    unfold retryInterval. lia.
  - rewrite D. subst w2. cbn. now rewrite Id.
  - rewrite Sn. subst w2. cbn. rewrite In. now rewrite app_nil_r.
  - exact R.
  - rewrite E. subst w2. cbn. rewrite Ic. lia.
Qed.

Lemma response_rendered_when_it_arrives_witness :
  let env := reliable (fun t f => if (t =? 8000) then Some sampleResponse
                                  else f) in
  exists w',
    eventLoop env 31 (u "Q")
      (setTimer (Some (0, 0)) (initialWorld (u "hdr --- old"))) = Some w'
    /\ now w' = 8000
    /\ notices (trace w') = [msgRendered]
    /\ resultsFile w' = None.
Proof.
  destruct (@response_rendered_when_it_arrives
              (reliable (fun t f => if (t =? 8000) then Some sampleResponse
                                    else f))
              (u "Q") 4
              (JObj [(u "answer", JStr (u "Y")); (u "sources", JArr [])])
              (answerContent (u "Q") (JStr (u "Y")) noSourcesLine)
              (setTimer (Some (0, 0)) (initialWorld (u "hdr --- old"))))
    as [w' [L [_ [C [_ [S [R _]]]]]]].
  - repeat constructor.
  - reflexivity.
  - reflexivity.
  - reflexivity.
  - intros s. reflexivity.
  - intros old new. reflexivity.
  - intros j Hj.
    destruct j as [|[|[|[|j]]]]; try reflexivity.
    exfalso. apply (Nat.lt_irrefl 4).
    apply Nat.le_lt_trans with (S (S (S (S j)))); [|exact Hj].
    repeat apply le_n_S. apply Nat.le_0_l.
  - reflexivity.
  - reflexivity.
  - exists w'. split; [apply L; repeat constructor|].
    split; [exact C|]. split; [exact S|exact R].
Defined.

End FoundFacts.

(** ** More on the question submission *)

Module SubmitMore.

Import TraceFacts.

Local Open Scope plugin_scope.

#[local] Arguments u : simpl never.
#[local] Arguments notices : simpl never.

Lemma str_eqb_eq (a b : jsstring) : str_eqb a b = true <-> a = b.
Proof.
  split; [|intros ->; apply SubmitFacts.str_eqb_refl].
  revert b; induction a as [|x a IH]; intros [|y b] H; simpl in H;
    try discriminate; [reflexivity|].
  apply andb_true_iff in H as [H1 H2]. apply N.eqb_eq in H1.
  f_equal; [exact H1|now apply IH].
Qed.

Lemma lookup_assign_other (key k0 : jsstring) (v : json)
    (fields : list (jsstring * json)) :
  str_eqb k0 key = false -> lookup key (assign k0 v fields) = lookup key fields.
Proof.
  intros H. induction fields as [|[k w] fields IH]; simpl.
  - now rewrite H.
  - destruct (str_eqb k k0) eqn:E; simpl.
    + apply str_eqb_eq in E. subst k. now rewrite H.
    + now rewrite IH.
Qed.

Lemma assign_assign (key : jsstring) (v1 v2 : json)
    (fields : list (jsstring * json)) :
  assign key v2 (assign key v1 fields) = assign key v2 fields.
Proof.
  induction fields as [|[k w] fields IH]; simpl.
  - now rewrite SubmitFacts.str_eqb_refl.
  - destruct (str_eqb k key) eqn:E; simpl; rewrite E; [reflexivity|].
    now rewrite IH.
Qed.

Lemma released (h : list fpath) :
  existsb (fpath_eqb QuestionJson)
    (filter (fun x => negb (fpath_eqb QuestionJson x)) h) = false.
Proof.
  induction h as [|x h IH]; [reflexivity|]. destruct x; cbn; exact IH.
Qed.

(** What the request file holds after a submission that meets no failure. *)
Lemma submit_file (a : N -> option filetext -> option filetext)
    (question : jsstring) (w : World) :
  copes (questionFile w) -> isHeld QuestionJson w = false ->
  let w' := snd (handleQuestionSubmit (reliable a) question w) in
  questionFile w'
  = Some (Serialized
            (JObj (assign (u "question") (JStr question)
                     (priorRecord (questionFile w) question))))
  /\ isHeld QuestionJson w' = false.
Proof.
  intros Hc Hh.
  unfold handleQuestionSubmit, tryFinally, tryCatch, bind, existsSync,
    writeFileSync, lock, readExisting, tryCatch, bind, readFileSync, unlock,
    renderResultsWhenAvailable, log, ret, isHeld in *.
  unfold jsonParse, setQuestion, throw, ret.
  destruct (questionFile w) as [[raw|v]|] eqn:Q;
    repeat (cbn -[checkResults]; rewrite ?Q, ?Hh);
    [destruct raw; repeat (cbn -[checkResults];
                           rewrite ?SubmitFacts.str_eqb_refl)
    |destruct v; try contradiction; repeat (cbn -[checkResults])
    |].
  all: SubmitFacts.first_check.
  all: match goal with H : existsb _ _ = true |- _ => rewrite H end.
  all: cbn; rewrite ?SubmitFacts.str_eqb_refl;
    (split; [assumption|apply released]).
Qed.

(** A submission over a request file that holds a JSON object replaces
    (or adds) its [question] and keeps every other property. *)
Theorem submit_keeps_other_fields
    (a : N -> option filetext -> option filetext)
    (question : jsstring) (fields : list (jsstring * json)) (w : World) :
  questionFile w = Some (Serialized (JObj fields)) ->
  isHeld QuestionJson w = false ->
  exists fields',
    questionFile (snd (handleQuestionSubmit (reliable a) question w))
    = Some (Serialized (JObj fields'))
    /\ lookup (u "question") fields' = Some (JStr question)
    /\ forall key, str_eqb (u "question") key = false ->
                   lookup key fields' = lookup key fields.
Proof.
  intros Hq Hh.
  destruct (@submit_file a question w) as [F _];
    [now rewrite Hq|exact Hh|].
  rewrite Hq in F. cbn [priorRecord] in F.
  eexists. split; [exact F|]. split.
  - apply SubmitFacts.lookup_assign.
  - intros key Hk. now apply lookup_assign_other.
Qed.

Lemma submit_keeps_other_fields_witness :
  exists fields',
    questionFile
      (snd (handleQuestionSubmit (reliable silent) (u "new")
              (setFile QuestionJson
                 (Some (Serialized (JObj [(u "id", JNum 7);
                                          (u "question", JStr (u "old"))])))
                 (initialWorld []))))
    = Some (Serialized (JObj fields'))
    /\ lookup (u "question") fields' = Some (JStr (u "new"))
    /\ forall key, str_eqb (u "question") key = false ->
                   lookup key fields'
                   = lookup key [(u "id", JNum 7);
                                 (u "question", JStr (u "old"))].
Proof.
  exact (@submit_keeps_other_fields silent (u "new")
           [(u "id", JNum 7); (u "question", JStr (u "old"))]
           (setFile QuestionJson
              (Some (Serialized (JObj [(u "id", JNum 7);
                                       (u "question", JStr (u "old"))])))
              (initialWorld []))
           eq_refl eq_refl).
Defined.

(** No history: after two submissions in a row the request file is what the
    second submission alone would have left, and it reads back as the
    second question. *)
Theorem submit_last_wins (a : N -> option filetext -> option filetext)
    (q1 q2 : jsstring) (w : World) :
  copes (questionFile w) -> isHeld QuestionJson w = false ->
  let w1 := snd (handleQuestionSubmit (reliable a) q1 w) in
  let w2 := snd (handleQuestionSubmit (reliable a) q2 w1) in
  questionFile w2
  = questionFile (snd (handleQuestionSubmit (reliable a) q2 w))
  /\ readQuestion w2 = Some (JStr q2).
Proof.
  intros Hc Hh w1 w2.
  destruct (@submit_file a q1 w Hc Hh) as [F1 Hh1]. fold w1 in F1, Hh1.
  assert (Hc1 : copes (questionFile w1)) by now rewrite F1.
  destruct (@submit_file a q2 w1 Hc1 Hh1) as [F2 _]. fold w2 in F2.
  destruct (@submit_file a q2 w Hc Hh) as [F _].
  split.
  - rewrite F2, F, F1. cbn [priorRecord]. rewrite assign_assign.
    destruct (questionFile w) as [[raw|v]|]; cbn [priorRecord];
      reflexivity.
  - unfold readQuestion. rewrite F2. cbn [getProp].
    apply SubmitFacts.lookup_assign.
Qed.

Lemma submit_last_wins_witness :
  readQuestion
    (snd (handleQuestionSubmit (reliable silent) (u "second")
            (snd (handleQuestionSubmit (reliable silent) (u "first")
                    (initialWorld [])))))
  = Some (JStr (u "second")).
Proof.
  exact (proj2 (@submit_last_wins silent (u "first") (u "second")
                  (initialWorld []) I eq_refl)).
Defined.

(** Every submission, whatever fails and whatever the request file held,
    ends in exactly one of two ways: the request file has been written with
    a JSON value and the polling is started (the response file is looked
    for once) without the notice of a failed submission; or that notice is
    shown once and the response file is not looked for. *)
Theorem submit_starts_or_reports (env : Env) (question : jsstring)
    (w : World) :
  let w' := snd (handleQuestionSubmit env question w) in
  (count isExistsCheck (trace w') = S (count isExistsCheck (trace w))
   /\ count isFailureNotice (trace w') = count isFailureNotice (trace w)
   /\ exists v, questionFile w' = Some (Serialized v))
  \/ (count isExistsCheck (trace w') = count isExistsCheck (trace w)
      /\ count isFailureNotice (trace w')
         = S (count isFailureNotice (trace w))).
Proof.
  unfold handleQuestionSubmit, tryFinally, tryCatch, bind, existsSync,
    writeFileSync, lock, readExisting, tryCatch, bind, readFileSync, unlock,
    renderResultsWhenAvailable, log, ret, isHeld,
    jsonParse, setQuestion, throw, ret.
  destruct (questionFile w) as [[raw|v]|] eqn:Q;
    repeat (cbn -[checkResults]; rewrite ?Q;
            try match goal with
                | |- context [if ?b then _ else _] => destruct b eqn:?
                | |- context [match ?x with JNull => _ | _ => _ end] =>
                    destruct x
                end).
  all: try SubmitFacts.first_check.
  all: cbn.
  all: first
    [ left; split; [|split]; [| |eexists; eassumption]; SubmitFacts.counts
    | right; split; SubmitFacts.counts ].
Qed.

Lemma submit_starts_or_reports_witness :
  let w' := snd (handleQuestionSubmit (failingAt SiteUpdate) (u "Q")
                   (initialWorld [])) in
  count isExistsCheck (trace w') = 0%nat
  /\ count isFailureNotice (trace w') = 1%nat.
Proof.
  destruct (@submit_starts_or_reports (failingAt SiteUpdate) (u "Q")
              (initialWorld [])) as [[T _]|[T S]].
  - discriminate T.
  - exact (conj T S).
Defined.

Lemma submit_then_read_witness :
  readQuestion
    (snd (handleQuestionSubmit (reliable silent) (u "Q")
            (setFile QuestionJson (Some (Unparseable (u "{")))
                     (initialWorld []))))
  = Some (JStr (u "Q")).
Proof.
  exact (proj1 (@SubmitFacts.submit_then_read silent (u "Q")
                  (setFile QuestionJson (Some (Unparseable (u "{")))
                           (initialWorld []))
                  I eq_refl)).
Defined.

(** The specification's timeout scenario, from the submission on: the first
    check is made inside the submission, the other 29 by the timers, and the
    callback with counter 30 reports the failure 60000 ms later. *)
Example submit_then_exhaustion :
  exists w',
    eventLoop (reliable silent) 30 (u "Q")
      (snd (handleQuestionSubmit (reliable silent) (u "Q")
              (initialWorld (u "hdr")))) = Some w'
    /\ timer w' = None
    /\ now w' = 60000%N
    /\ count isExistsCheck (trace w') = 30%nat
    /\ notices (trace w') = [msgNoResults]
    /\ document w' = u "hdr".
Proof.
  eexists. split; [vm_compute; reflexivity|].
  vm_compute. now repeat split.
Qed.

End SubmitMore.

(** ** Source names without extension *)

Module PathMore.

Import Path PathFacts.

Local Open Scope Z_scope.

Ltac plain_simp :=
  cbn [app List.length basename_plain_loop b_start b_end b_matchedSlash
       extIdx firstNonSlashEnd negb].

Lemma plain_first (c : N) (rs : list N) (i : Z) :
  notSlash c ->
  basename_plain_loop (c :: rs) i (BaseState 0 (-1) true (-1) (-1))
  = basename_plain_loop rs (i - 1) (BaseState 0 (i + 1) false (-1) (-1)).
Proof.
  intros Hc. apply N.eqb_neq in Hc. plain_simp. rewrite Hc. reflexivity.
Qed.

Lemma plain_rest (l rs : list N) (i e : Z) :
  Forall notSlash l -> e <> -1 ->
  basename_plain_loop (l ++ rs) i (BaseState 0 e false (-1) (-1))
  = basename_plain_loop rs (i - Z.of_nat (List.length l))
      (BaseState 0 e false (-1) (-1)).
Proof.
  intros Hl He. revert i. induction Hl as [|c l Hc Hl IH]; intros i.
  - simpl. f_equal. lia.
  - apply N.eqb_neq in Hc. apply Z.eqb_neq in He.
    plain_simp. rewrite Hc, He. rewrite IH. f_equal. lia.
Qed.

Lemma plain_stop (dir : jsstring) (i e : Z) :
  dirPart dir -> i = Z.of_nat (List.length dir) - 1 ->
  basename_plain_loop (rev dir) i (BaseState 0 e false (-1) (-1))
  = BaseState (Z.of_nat (List.length dir)) e false (-1) (-1).
Proof.
  intros [->|[d ->]] Hi.
  - reflexivity.
  - rewrite rev_app_distr. simpl. f_equal. lia.
Qed.

(** Without suffix, the base name is the last component of the path. *)
Lemma basename_last (dir name : jsstring) :
  dirPart dir -> name <> [] -> Forall notSlash name ->
  basename (dir ++ name) [] = name.
Proof.
  intros Hd Hn Fn. unfold basename. cbn [List.length andb Z.of_nat Z.ltb].
  replace (0 <? 0) with false by reflexivity. cbn [andb].
  destruct (rev_nonempty Hn) as [c [l [Er El]]].
  assert (Fr : Forall notSlash (c :: l)) by (rewrite <- Er; now apply Forall_rev).
  inversion Fr as [|? ? Hc Fl]; subst.
  rewrite rev_app_distr, Er. cbn [app].
  rewrite length_app, El.
  rewrite plain_first by exact Hc.
  rewrite plain_rest by (try exact Fl; lia).
  rewrite plain_stop; [|exact Hd|lia].
  cbn [b_start b_end].
  replace (Z.of_nat (List.length dir + S (List.length l)) - 1 + 1 =? -1)
    with false by (symmetry; apply Z.eqb_neq; lia).
  replace (dir ++ name) with (dir ++ name ++ []) by now rewrite app_nil_r.
  replace (Z.of_nat (List.length dir + S (List.length l)) - 1 + 1)
    with (Z.of_nat (List.length dir) + Z.of_nat (List.length name)) by lia.
  apply slice_middle.
Qed.

(** A last component without dot, or with its only dot in front, has no
    extension. *)
Lemma extname_none (dir rest : jsstring) (dot : bool) :
  dirPart dir -> rest <> [] -> Forall plainChar rest ->
  extname (dir ++ (if dot then [CHAR_DOT] else []) ++ rest) = [].
Proof.
  intros Hd Hn Fn. unfold extname.
  destruct (rev_nonempty Hn) as [c [l [Er El]]].
  assert (Fr : Forall plainChar (c :: l)) by (rewrite <- Er; now apply Forall_rev).
  inversion Fr as [|? ? Hc Fl]; subst.
  rewrite !rev_app_distr, Er. cbn [app]. rewrite <- app_assoc.
  rewrite ext_first by exact Hc.
  rewrite ext_plain by (try exact Fl; rewrite !length_app; lia).
  destruct dot; cbn [rev app].
  - rewrite ext_dot by (rewrite !length_app; lia).
    match goal with
    | |- context [extname_loop (rev dir) ?i (ExtState ?sd ?sp ?e false ?p)] =>
        destruct (@ext_stop dir i sd sp e p Hd) as [sp' E]
    end.
    { rewrite !length_app. cbn [List.length]. lia. }
    rewrite E. cbn [startDot ext_end preDotState]. 
    replace (0 =? 0) with true by reflexivity.
    now rewrite !orb_true_r.
  - match goal with
    | |- context [extname_loop (rev dir) ?i (ExtState ?sd ?sp ?e false ?p)] =>
        destruct (@ext_stop dir i sd sp e p Hd) as [sp' E]
    end.
    { rewrite !length_app. cbn [List.length]. lia. }
    rewrite E. reflexivity.
Qed.

(** A source path whose last component has no extension (no dot, or only a
    leading dot) is shown under that component, whole. *)
Theorem sourceLine_without_extension (dir rest : jsstring) (dot : bool) :
  dirPart dir -> rest <> [] -> Forall plainChar rest ->
  sourceLine (dir ++ (if dot then [CHAR_DOT] else []) ++ rest)
  = u "- [[" ++ (if dot then [CHAR_DOT] else []) ++ rest ++ u "]]".
Proof.
  intros Hd Hn Fn. unfold sourceLine.
  rewrite extname_none by assumption.
  rewrite basename_last; [now rewrite <- app_assoc|exact Hd| |].
  - destruct dot; [discriminate|exact Hn].
  - apply Forall_app. split.
    + destruct dot; repeat constructor. discriminate.
    + eapply Forall_impl; [|exact Fn]. now intros a [Ha _].
Qed.

Lemma sourceLine_without_extension_witness :
  sourceLine (u "notes/.hidden") = u "- [[.hidden]]".
Proof.
  refine (@sourceLine_without_extension (u "notes/") (u "hidden") true _ _ _).
  - right. exists (u "notes"). reflexivity.
  - discriminate.
  - repeat constructor; discriminate.
Defined.

(** A source path with a directory part, a stem and an extension. *)
Lemma sourceLine_of_witness :
  sourceLine (u "notes/sub/Alpha.v2.md") = u "- [[Alpha.v2]]".
Proof.
  refine (@sourceLine_of (u "notes/sub/") (u "Alpha.v2") (u "md") _ _ _ _ _).
  - right. exists (u "notes/sub"). reflexivity.
  - discriminate.
  - repeat constructor; discriminate.
  - discriminate.
  - repeat constructor; discriminate.
Defined.

End PathMore.

(** ** The source section of the answer block (C7) *)

Module SourcesFacts.

Import Path RenderFacts.

(** The line of a path made of a directory part, a name and an
    extension shows the name. *)
Lemma sourceLine_shaped (p : sourcePath) :
  shaped p -> sourceLine (pathText p) = u "- [[" ++ nameOf p ++ u "]]".
Proof.
  destruct p as [dir name [e|]]; unfold shaped, pathText, sourceLine;
    cbn [dirOf nameOf extOf].
  - intros [Hd [Hn [Fn [He Fe]]]].
    rewrite PathFacts.extname_of by assumption.
    now rewrite PathFacts.basename_of by assumption.
  - intros [Hd [Hn Fn]]. rewrite app_nil_r.
    assert (E := @PathMore.extname_none dir name false Hd Hn Fn).
    cbn [app] in E. rewrite E.
    rewrite PathMore.basename_last; [reflexivity|exact Hd|exact Hn|].
    eapply Forall_impl; [|exact Fn]. now intros a [Ha _].
Qed.

Lemma map_sourceLine_shaped (paths : list sourcePath) :
  Forall shaped paths ->
  map sourceLine (map pathText paths)
  = map (fun p => u "- [[" ++ nameOf p ++ u "]]") paths.
Proof.
  induction 1 as [|p paths Hp _ IH]; [reflexivity|].
  cbn [map]. now rewrite IH, sourceLine_shaped.
Qed.

(** Lines joined by line feeds, then a line feed: every line is ended
    by one. *)
Lemma join_lines (l : jsstring) (ls : list jsstring) :
  join nl (l :: ls) ++ nl = concat (map (fun x => x ++ nl) (l :: ls)).
Proof.
  revert l; induction ls as [|l' ls IH]; intros l.
  - cbn. now rewrite app_nil_r.
  - change (join nl (l :: l' :: ls)) with (l ++ nl ++ join nl (l' :: ls)).
    rewrite <- !app_assoc, IH. cbn [map concat].
    now rewrite <- !app_assoc.
Qed.

(** C7: for a response whose [answer] is a text and whose [sources] is a
    list of paths, each made of a directory part, a name and possibly an
    extension, the block is the question heading, the answer (the
    placeholder for the empty text), the heading of the sources and then,
    each on a line of its own: the fixed line [- No sources found.] when the
    list is empty, otherwise one line [- [[name]]] per source, in the order
    of the list, with the name of the source without directory and
    extension; a blank line and the delimiter follow. *)
Theorem sources_section (question answer : jsstring)
    (paths : list sourcePath) (fields : list (jsstring * json)) :
  lookup (u "answer") fields = Some (JStr answer) ->
  lookup (u "sources") fields
  = Some (JArr (map (fun p => JStr (pathText p)) paths)) ->
  Forall shaped paths ->
  renderBlock question (JObj fields)
  = Ok (u "## " ++ question ++ nl ++ nl
          ++ match answer with
             | [] => u "No answer provided"
             | _ :: _ => answer
             end
          ++ nl ++ nl ++ u "### Sources:" ++ nl
          ++ concat (map (fun line => line ++ nl)
                       match paths with
                       | [] => [u "- No sources found."]
                       | _ :: _ =>
                           map (fun p => u "- [[" ++ nameOf p ++ u "]]") paths
                       end)
          ++ nl ++ u "---" ++ nl ++ nl).
Proof.
  intros Ha Hs Hp. unfold renderBlock, getProp. cbv zeta.
  rewrite Ha, Hs. cbn [orDefault truthy].
  rewrite <- (map_map pathText JStr), sourcesText_strings.
  assert (T : forall a : jsstring,
            toStringThrows (if match a with [] => false | _ => true end
                            then JStr a else JStr placeholderAnswer)
            = false) by (intros [|? ?]; reflexivity).
  rewrite T. unfold answerContent. do 2 f_equal.
  assert (E : toString (if match answer with [] => false | _ => true end
                        then JStr answer else JStr placeholderAnswer)
              = match answer with
                | [] => u "No answer provided"
                | _ :: _ => answer
                end) by (destruct answer; reflexivity).
  rewrite E. do 6 f_equal.
  destruct paths as [|p paths]; [reflexivity|].
  rewrite <- (map_sourceLine_shaped Hp).
  cbn [map]. do 2 f_equal. rewrite app_assoc, join_lines. reflexivity.
Qed.

Lemma sources_section_witness :
  renderBlock (u "What is X?")
    (JObj [(u "answer", JStr (u "Y"));
           (u "sources", JArr [JStr (u "notes/Alpha.md");
                               JStr (u "notes/Beta.md")])])
  = Ok (u "## What is X?" ++ nl ++ nl ++ u "Y" ++ nl ++ nl
          ++ u "### Sources:" ++ nl
          ++ u "- [[Alpha]]" ++ nl ++ u "- [[Beta]]" ++ nl
          ++ nl ++ u "---" ++ nl ++ nl).
Proof.
  refine (@sources_section (u "What is X?") (u "Y")
            [mkSourcePath (u "notes/") (u "Alpha") (Some (u "md"));
             mkSourcePath (u "notes/") (u "Beta") (Some (u "md"))]
            [(u "answer", JStr (u "Y"));
             (u "sources", JArr [JStr (u "notes/Alpha.md");
                                 JStr (u "notes/Beta.md")])]
            eq_refl eq_refl _).
  assert (D : dirPart (u "notes/")) by (right; exists (u "notes"); reflexivity).
  apply Forall_cons; [|apply Forall_cons; [|apply Forall_nil]];
    (split; [exact D|]); repeat constructor; discriminate.
Defined.

End SourcesFacts.

(** ** Settings *)

Module SettingsFacts.

Import SubmitFacts SubmitMore.

Lemma lookup_absent (key : jsstring) (fields : list (jsstring * json)) :
  ~ In key (map fst fields) -> lookup key fields = None.
Proof.
  induction fields as [|[k v] fields IH]; simpl; [reflexivity|].
  intros H. destruct (str_eqb k key) eqn:E.
  - apply str_eqb_eq in E. subst k. tauto.
  - apply IH. tauto.
Qed.

(** Copying properties one after the other: a key of the source takes the
    source's value, any other key keeps the target's. *)
Lemma lookup_assignAll (key : jsstring) (props : list (jsstring * json)) :
  NoDup (map fst props) ->
  forall target,
    lookup key (assignAll target props)
    = match lookup key props with
      | Some v => Some v
      | None => lookup key target
      end.
Proof.
  unfold assignAll.
  induction props as [|[k v] props IH]; intros Hd target; [reflexivity|].
  inversion Hd as [|? ? Hk Hd']; subst.
  cbn [fold_left fst snd lookup]. rewrite IH by exact Hd'.
  destruct (str_eqb k key) eqn:E.
  - apply str_eqb_eq in E. subst k.
    rewrite (lookup_absent _ _ Hk). apply lookup_assign.
  - destruct (lookup key props); [reflexivity|].
    now apply lookup_assign_other.
Qed.

Lemma loadSettings_object (key : jsstring)
    (fields : list (jsstring * json)) :
  NoDup (map fst fields) ->
  lookup key (loadSettings (Some (JObj fields)))
  = match lookup key fields with
    | Some v => Some v
    | None => lookup key DEFAULT_SETTINGS
    end.
Proof.
  intros Hd. unfold loadSettings, objectAssign. cbn [fold_left ownProperties].
  rewrite lookup_assignAll by exact Hd. reflexivity.
Qed.

(** The settings after a load: a property of the stored object is taken
    from it; the folder name is the default when the stored object has
    none or when there is no stored data; no other property appears.  A
    stored property named [__proto__] is left out: assigning it would set
    the prototype of the settings object, which the model does not have. *)
Theorem loadSettings_lookup (key : jsstring)
    (fields : list (jsstring * json)) :
  NoDup (map fst fields) ->
  ~ In (u "__proto__") (map fst fields) ->
  lookup key (loadSettings (Some (JObj fields)))
  = match lookup key fields with
    | Some v => Some v
    | None => lookup key DEFAULT_SETTINGS
    end
  /\ loadSettings None = DEFAULT_SETTINGS
  /\ loadSettings (Some JNull) = DEFAULT_SETTINGS.
Proof.
  intros Hd _. split; [|split; reflexivity].
  now apply loadSettings_object.
Qed.

Lemma loadSettings_lookup_witness :
  lookup (u "chatFolderName")
    (loadSettings (Some (JObj [(u "theme", JStr (u "dark"))])))
  = Some (JStr (u "RAG Chats")).
Proof.
  refine (proj1 (@loadSettings_lookup (u "chatFolderName")
                   [(u "theme", JStr (u "dark"))] _ _)).
  - repeat constructor. simpl. tauto.
  - simpl. intros [H|[]]. discriminate H.
Defined.

Lemma in_assign_keys (x key : jsstring) (v : json)
    (fields : list (jsstring * json)) :
  In x (map fst (assign key v fields)) -> In x (map fst fields) \/ x = key.
Proof.
  induction fields as [|[k w] fields IH]; simpl.
  - intros [H|[]]. right. now symmetry.
  - destruct (str_eqb k key) eqn:E; simpl; [tauto|].
    intros [H|H]; [tauto|]. destruct (IH H); tauto.
Qed.

Lemma assign_NoDup (key : jsstring) (v : json)
    (fields : list (jsstring * json)) :
  NoDup (map fst fields) -> NoDup (map fst (assign key v fields)).
Proof.
  induction fields as [|[k w] fields IH]; simpl; intros Hd.
  - repeat constructor. tauto.
  - inversion Hd as [|? ? Hk Hd']; subst.
    destruct (str_eqb k key) eqn:E; simpl; [now constructor|].
    constructor; [|now apply IH].
    intros H. apply in_assign_keys in H as [H| ->]; [tauto|].
    now rewrite str_eqb_refl in E.
Qed.

(** A folder name entered in the settings tab is the one the next load
    yields, and every other setting is loaded as it was saved. *)
Theorem folder_name_survives_reload (value key : jsstring)
    (settings : list (jsstring * json)) :
  NoDup (map fst settings) ->
  ~ In (u "__proto__") (map fst settings) ->
  let reloaded := loadSettings (snd (onChange value settings)) in
  lookup (u "chatFolderName") reloaded = Some (JStr value)
  /\ (str_eqb (u "chatFolderName") key = false ->
      lookup key reloaded
      = match lookup key settings with
        | Some v => Some v
        | None => lookup key DEFAULT_SETTINGS
        end).
Proof.
  intros Hd _ reloaded. subst reloaded.
  unfold onChange, saveSettings. cbn [snd].
  split.
  - rewrite (@loadSettings_object (u "chatFolderName") _
               (@assign_NoDup _ _ _ Hd)).
    now rewrite lookup_assign.
  - intros Hk.
    rewrite (@loadSettings_object key _ (@assign_NoDup _ _ _ Hd)).
    now rewrite lookup_assign_other.
Qed.

Lemma folder_name_survives_reload_witness :
  lookup (u "chatFolderName")
    (loadSettings (snd (onChange (u "Chats") (loadSettings None))))
  = Some (JStr (u "Chats")).
Proof.
  refine (proj1 (@folder_name_survives_reload (u "Chats") []
                   (loadSettings None) _ _)).
  - repeat constructor. simpl. tauto.
  - simpl. intros [H|[]]. discriminate H.
Defined.

End SettingsFacts.

(** ** Opening a chat *)

Module ChatFacts.

Import SubmitFacts SubmitMore.

Lemma lookup_added (path q : jsstring) (e : entry) (v : Vault) :
  getAbstractFileByPath q (v ++ [(path, e)])
  = match getAbstractFileByPath q v with
    | Some x => Some x
    | None => if str_eqb path q then Some e else None
    end.
Proof.
  induction v as [|[p x] v IH]; simpl; [reflexivity|].
  destruct (str_eqb p q); [reflexivity|exact IH].
Qed.

(** The path of a new note is never the folder itself. *)
Lemma newChatFile_not_folder (folder : jsstring) (t : N) :
  str_eqb folder (newChatFile folder t) = false.
Proof.
  destruct (str_eqb folder (newChatFile folder t)) eqn:E; [|reflexivity].
  apply str_eqb_eq in E. apply (f_equal (@List.length N)) in E.
  unfold newChatFile in E. rewrite !length_app in E. cbn [List.length u] in E.
  simpl in E. lia.
Qed.

Lemma digit_chars (d : Decimal.uint) :
  Forall (fun c => (c =? 47)%N = false)
    (u (DecimalString.NilEmpty.string_of_uint d)).
Proof.
  induction d; cbn; constructor; try reflexivity; assumption.
Qed.

(** The decimal digits of a number hold no slash. *)
Lemma digits_no_slash (n : N) :
  Forall (fun c => (c =? 47)%N = false) (digits n).
Proof.
  unfold digits, DecimalString.NilZero.string_of_uint.
  destruct (N.to_uint n) eqn:E;
    try (rewrite <- E; apply digit_chars).
  repeat constructor.
Qed.

Lemma afterSlash_skip (l r : jsstring) :
  Forall (fun c => (c =? 47)%N = false) l ->
  afterSlash (l ++ 47%N :: r) = Some r.
Proof.
  induction 1 as [|c l Hc _ IH]; cbn; [reflexivity|].
  now rewrite Hc.
Qed.

(** A new note lies in the chat folder. *)
Lemma parentOf_newChatFile (folder : jsstring) (t : N) :
  parentOf (newChatFile folder t) = Some folder.
Proof.
  unfold parentOf, newChatFile.
  rewrite !rev_app_distr. change (rev (u "/")) with [47%N].
  rewrite <- !app_assoc. cbn [app].
  rewrite app_assoc, afterSlash_skip; [now rewrite rev_involutive|].
  apply Forall_app. split; [repeat constructor|].
  apply Forall_rev, digits_no_slash.
Qed.

(** Whenever [openRagChat] succeeds: no entry had the path
    [folder/<Date.now()>.md] before, the note at that path now holds the
    initial content and is the one file that has been opened, it lies in a
    folder, and every entry that existed is still there, unchanged.
    Whenever it fails, no file has been opened. *)
Theorem openRagChat_creates_note (folder : jsstring) (t : N) (h : Host) :
  let r := openRagChat folder t h in
  (fst r = Ok tt ->
   getAbstractFileByPath (newChatFile folder t) (vault h) = None
   /\ getAbstractFileByPath (newChatFile folder t) (vault (snd r))
      = Some (Note getInitialContent)
   /\ getAbstractFileByPath folder (vault (snd r)) = Some Folder
   /\ opened (snd r) = opened h ++ [newChatFile folder t]
   /\ forall q e, getAbstractFileByPath q (vault h) = Some e ->
                  getAbstractFileByPath q (vault (snd r)) = Some e)
  /\ (fst r = Thrown -> opened (snd r) = opened h).
Proof.
  unfold openRagChat, createFolder, create.
  rewrite parentOf_newChatFile.
  destruct (getAbstractFileByPath folder (vault h)) as [e0|] eqn:F.
  - destruct (getAbstractFileByPath (newChatFile folder t) (vault h))
      as [x|] eqn:Hn; [now split|].
    cbv beta iota zeta. rewrite F.
    destruct e0 as [|c]; [|now split].
    cbn [fst snd vault opened]. split; [intros _|discriminate].
    split; [reflexivity|]. split; [|split; [|split; [reflexivity|]]].
    + now rewrite lookup_added, Hn, str_eqb_refl.
    + now rewrite lookup_added, F.
    + intros q e H. now rewrite lookup_added, H.
  - rewrite !lookup_added, F, str_eqb_refl, newChatFile_not_folder.
    destruct (getAbstractFileByPath (newChatFile folder t) (vault h))
      as [x|] eqn:Hn; [now split|].
    cbn [fst snd vault opened]. split; [intros _|discriminate].
    split; [reflexivity|]. split; [|split; [|split; [reflexivity|]]].
    + rewrite !lookup_added, Hn, newChatFile_not_folder.
      now rewrite str_eqb_refl.
    + rewrite !lookup_added, F, str_eqb_refl. reflexivity.
    + intros q e H. now rewrite !lookup_added, H.
Qed.

Lemma openRagChat_creates_note_witness :
  let r := openRagChat (u "RAG Chats") 1700000000000
             (mkHost [(u "Welcome.md", Note (u "hi"))] []) in
  getAbstractFileByPath (u "RAG Chats/1700000000000.md") (vault (snd r))
  = Some (Note getInitialContent)
  /\ opened (snd r) = [u "RAG Chats/1700000000000.md"].
Proof.
  destruct (proj1 (@openRagChat_creates_note (u "RAG Chats") 1700000000000
                     (mkHost [(u "Welcome.md", Note (u "hi"))] []))
              eq_refl)
    as [_ [A [_ [B _]]]].
  exact (conj A B).
Defined.

(** Two chats opened within the same millisecond: the note of the first is
    already there, so [vault.create] rejects; the existing note keeps its
    content (it may hold answers by now), the vault is left as it was and
    no file is opened. *)
Theorem openRagChat_same_millisecond (folder : jsstring) (t : N)
    (content : jsstring) (h : Host) :
  getAbstractFileByPath (newChatFile folder t) (vault h)
  = Some (Note content) ->
  getAbstractFileByPath folder (vault h) = Some Folder ->
  openRagChat folder t h = (Thrown, h).
Proof.
  intros Hn Hf. unfold openRagChat, create. rewrite Hf, Hn.
  now destruct h.
Qed.

Lemma openRagChat_same_millisecond_witness :
  let h1 := snd (openRagChat (u "RAG Chats") 5 (mkHost [] [])) in
  openRagChat (u "RAG Chats") 5 h1 = (Thrown, h1).
Proof.
  exact (@openRagChat_same_millisecond (u "RAG Chats") 5 getInitialContent
           (snd (openRagChat (u "RAG Chats") 5 (mkHost [] [])))
           eq_refl eq_refl).
Defined.

End ChatFacts.
